(** * Verification of [resu.Checkpoint] (src/resu/resu.py)

    A shallow embedding of the checkpoint/resume engine of [resu]:
    the marker encoder [Checkpoint._encode] (pickle, then base64), the
    checkpoint store [Checkpoint.ckpt_io] (gzip + pickle of the progress
    list), the resume planner [Checkpoint.check_progress] and the
    execution loop [Checkpoint.record].

    Python bytes are lists of [Byte.byte]; Python values that reach the
    engine are the inductive [pyval]; the object and its environment are
    threaded through a small state-and-exception monad. *)

From Stdlib Require Import ZArith Lia List String Ascii Bool.
From Stdlib Require Import Strings.Byte.
Import ListNotations.
Open Scope Z_scope.
Set Warnings "-register-all".

Definition bytes := list byte.

(** ** Bytes as 8-bit integers *)

Definition Z_of_byte (b : byte) : Z := Z.of_N (Byte.to_N b).

(** [z & 0xff] as a byte. *)
Definition byte_of_Z (z : Z) : byte :=
  match Byte.of_N (Z.to_N (z mod 256)) with
  | Some b => b
  | None => x00
  end.

(** [z.to_bytes(n, 'little')] for [z] taken modulo [2^(8n)]: the
    little-endian (two's complement for negative [z]) byte string. *)
Fixpoint le_bytes (n : nat) (z : Z) : bytes :=
  match n with
  | O => []
  | S k => byte_of_Z z :: le_bytes k (z / 256)
  end.

(** [int.from_bytes(l, 'little')], unsigned. *)
Fixpoint le_val (l : bytes) : Z :=
  match l with
  | [] => 0
  | b :: r => Z_of_byte b + 256 * le_val r
  end.

Definition len (l : bytes) : Z := Z.of_nat (List.length l).

(** ** Python values reaching the engine *)

Inductive pyval : Type :=
| PNone
| PBool (b : bool)
| PInt (z : Z)
| PBytes (bs : bytes)
| PList (l : list pyval).

(** Python's [==] on these values: [True == 1] and [False == 0]. *)
Definition num_of (v : pyval) : option Z :=
  match v with
  | PInt z => Some z
  | PBool true => Some 1
  | PBool false => Some 0
  | _ => None
  end.

Fixpoint bytes_eqb (a b : bytes) : bool :=
  match a, b with
  | [], [] => true
  | x :: a', y :: b' => Byte.eqb x y && bytes_eqb a' b'
  | _, _ => false
  end.

Fixpoint py_eq (a b : pyval) : bool :=
  match a, b with
  | PNone, PNone => true
  | PBytes x, PBytes y => bytes_eqb x y
  | PList xs, PList ys =>
      (fix go (xs ys : list pyval) : bool :=
         match xs, ys with
         | [], [] => true
         | x :: xs', y :: ys' => py_eq x y && go xs' ys'
         | _, _ => false
         end) xs ys
  | _, _ =>
      match num_of a, num_of b with
      | Some x, Some y => Z.eqb x y
      | _, _ => false
      end
  end.

(** ** [pickle.dumps] (protocol 4, the default of CPython 3.8 to 3.13)

    Opcodes of [Lib/pickle.py] used for these values. *)
Module Op.
Definition PROTO := x80.
Definition FRAME := x95.
Definition STOP := x2e.            (* '.' *)
Definition NONE := x4e.            (* 'N' *)
Definition NEWTRUE := x88.
Definition NEWFALSE := x89.
Definition BININT := x4a.          (* 'J' *)
Definition BININT1 := x4b.         (* 'K' *)
Definition BININT2 := x4d.         (* 'M' *)
Definition LONG1 := x8a.
Definition LONG4 := x8b.
Definition SHORT_BINBYTES := x43.  (* 'C' *)
Definition BINBYTES := x42.        (* 'B' *)
Definition BINBYTES8 := x8e.
Definition EMPTY_LIST := x5d.      (* ']' *)
Definition MARK := x28.            (* '(' *)
Definition APPEND := x61.          (* 'a' *)
Definition APPENDS := x65.         (* 'e' *)
Definition MEMOIZE := x94.
End Op.

Definition DEFAULT_PROTOCOL : Z := 4.
Definition BATCHSIZE : nat := 1000.

(** [encode_long]: minimal little-endian two's complement. *)
Definition encode_long (x : Z) : bytes :=
  if Z.eqb x 0 then [] else
  let nbytes := Z.to_nat (Z.shiftr (Z.log2 (Z.abs x) + 1) 3 + 1) in
  let result := le_bytes nbytes x in
  if (x <? 0) && (1 <? Z.of_nat nbytes) then
    match rev result with
    | last :: prev :: _ =>
        if Byte.eqb last xff && negb (Z.eqb (Z.land (Z_of_byte prev) 128) 0)
        then firstn (pred nbytes) result else result
    | _ => result
    end
  else result.

Definition save_long (x : Z) : bytes :=
  if (0 <=? x) && (x <=? 255) then [Op.BININT1; byte_of_Z x]
  else if (0 <=? x) && (x <=? 65535) then Op.BININT2 :: le_bytes 2 x
  else if (- 2147483648 <=? x) && (x <=? 2147483647) then Op.BININT :: le_bytes 4 x
  else
    let data := encode_long x in
    if len data <? 256 then Op.LONG1 :: byte_of_Z (len data) :: data
    else Op.LONG4 :: le_bytes 4 (len data) ++ data.

(** [_save_bytes_data] followed by [memoize]. *)
Definition save_bytes (bs : bytes) : bytes :=
  let n := len bs in
  (if n <=? 255 then [Op.SHORT_BINBYTES; byte_of_Z n]
   else if n <=? 4294967295 then Op.BINBYTES :: le_bytes 4 n
   else Op.BINBYTES8 :: le_bytes 8 n) ++ bs ++ [Op.MEMOIZE].

(** The loop of [batch_list_exact] for lists of two or more items, over
    the already pickled items: a [MARK] is open, [cnt] items are in the
    current batch; a batch is closed after [BATCHSIZE] items when more
    items follow. *)
Fixpoint batch_appends (items : list bytes) (cnt : nat) : bytes :=
  match items with
  | [] => [Op.APPENDS]
  | x :: rest =>
      if Nat.eqb cnt BATCHSIZE
      then Op.APPENDS :: Op.MARK :: x ++ batch_appends rest 1
      else x ++ batch_appends rest (S cnt)
  end.

Definition save_list (items : list bytes) : bytes :=
  Op.EMPTY_LIST :: Op.MEMOIZE ::
  match items with
  | [] => []
  | [x] => x ++ [Op.APPEND]
  | _ => Op.MARK :: batch_appends items 0
  end.

(** The opcodes of [save(obj)]. *)
Fixpoint save (v : pyval) : bytes :=
  match v with
  | PNone => [Op.NONE]
  | PBool true => [Op.NEWTRUE]
  | PBool false => [Op.NEWFALSE]
  | PInt z => save_long z
  | PBytes bs => save_bytes bs
  | PList l => save_list (map save l)
  end.

(** Framing of protocol 4: the opcodes after [PROTO] form one frame,
    whose header is dropped when the frame is shorter than
    [_FRAME_SIZE_MIN = 4] bytes.  (The library splits pickles longer than
    its 64 KiB frame target into several frames; this model keeps one.
    Values are trees: the memo is only written ([MEMOIZE]), never read
    back, whereas CPython writes a [BINGET] for an object it meets twice,
    such as a shared list or its cached empty and one-byte [bytes].) *)
Definition frame (payload : bytes) : bytes :=
  if 4 <=? len payload then Op.FRAME :: le_bytes 8 (len payload) ++ payload
  else payload.

Definition pickle_dumps (v : pyval) : bytes :=
  Op.PROTO :: byte_of_Z DEFAULT_PROTOCOL :: frame (save v ++ [Op.STOP]).

(** ** [base64.b64encode] (RFC 4648 standard alphabet, with padding) *)

Definition b64_char (i : Z) : byte :=
  if i <? 26 then byte_of_Z (65 + i)
  else if i <? 52 then byte_of_Z (97 + (i - 26))
  else if i <? 62 then byte_of_Z (48 + (i - 52))
  else if i =? 62 then byte_of_Z 43
  else byte_of_Z 47.

Definition b64_pad : byte := x3d.   (* '=' *)

Definition sextet (n : Z) (k : Z) : byte := b64_char (Z.land (Z.shiftr n k) 63).

Fixpoint b64encode (l : bytes) : bytes :=
  match l with
  | a :: b :: c :: rest =>
      let n := Z.shiftl (Z_of_byte a) 16 + Z.shiftl (Z_of_byte b) 8 + Z_of_byte c in
      sextet n 18 :: sextet n 12 :: sextet n 6 :: sextet n 0 :: b64encode rest
  | [a; b] =>
      let n := Z.shiftl (Z_of_byte a) 16 + Z.shiftl (Z_of_byte b) 8 in
      [sextet n 18; sextet n 12; sextet n 6; b64_pad]
  | [a] =>
      let n := Z.shiftl (Z_of_byte a) 16 in
      [sextet n 18; sextet n 12; b64_pad; b64_pad]
  | [] => []
  end.

(** [Checkpoint._encode]: [base64.b64encode(pickle.dumps(x))]. *)
Definition _encode (x : pyval) : bytes := b64encode (pickle_dumps x).


(** ** Python exceptions and results *)

Inductive exc : Type :=
| FileNotFoundError (msg : string)
| EOFError
| UnpicklingError (msg : string)
| TypeError
| NotImplementedError (msg : string)
| ImportError (msg : string)
| CallbackError               (* whatever the user callback raised *)
| SystemExit (code : Z).

Inductive res (A : Type) : Type :=
| Ok (a : A)
| Err (e : exc).
Arguments Ok {A} a.
Arguments Err {A} e.

(** ** [pickle.loads]: the unpickler's stack machine for these opcodes *)

Inductive sitem : Type :=
| SMark
| SVal (v : pyval).

Inductive stepres : Type :=
| Next (i : bytes) (stack : list sitem) (memo : list pyval)
| Stop (r : res pyval).

Definition take (n : nat) (l : bytes) : option (bytes * bytes) :=
  if Nat.leb n (List.length l) then Some (firstn n l, skipn n l) else None.

Definition truncated : stepres := Stop (Err (UnpicklingError "pickle data was truncated")).
Definition underflow : stepres := Stop (Err (UnpicklingError "unpickling stack underflow")).

Definition PY_SSIZE_T_MAX : Z := 9223372036854775807.

(** Two's complement little-endian ([decode_long]). *)
Definition decode_long (l : bytes) : Z :=
  match rev l with
  | [] => 0
  | last :: _ =>
      if Z_of_byte last <? 128 then le_val l else le_val l - 2 ^ (8 * len l)
  end.

(** Read a [k]-byte little-endian count, then that many bytes. *)
Definition counted (k : nat) (signed : bool) (rest : bytes)
    (f : bytes -> bytes -> stepres) : stepres :=
  match take k rest with
  | None => truncated
  | Some (hd, rest1) =>
      let n := if signed then decode_long hd else le_val hd in
      if (n <? 0) || (PY_SSIZE_T_MAX <? n) then
        Stop (Err (UnpicklingError "byte count out of range"))
      else match take (Z.to_nat n) rest1 with
           | None => truncated
           | Some (data, rest2) => f data rest2
           end
  end.

(** Pop the items above the topmost mark ([pop_mark]). *)
Fixpoint pop_mark (s : list sitem) (acc : list pyval) : option (list pyval * list sitem) :=
  match s with
  | [] => None
  | SMark :: s' => Some (acc, s')
  | SVal v :: s' => pop_mark s' (v :: acc)
  end.

Definition push (v : pyval) (rest : bytes) (s : list sitem) (m : list pyval) : stepres :=
  Next rest (SVal v :: s) m.

(** One opcode of [Unpickler.load]. *)
Definition step (i : bytes) (s : list sitem) (m : list pyval) : stepres :=
  match i with
  | [] => Stop (Err EOFError)                         (* "Ran out of input" *)
  | op :: rest =>
      match op with
      | x80 =>                                          (* PROTO *)
          match rest with
          | p :: rest1 =>
              if Z_of_byte p <=? 5 then Next rest1 s m
              else Stop (Err (UnpicklingError "unsupported pickle protocol"))
          | [] => truncated
          end
      | x95 =>                                          (* FRAME *)
          match take 8 rest with
          | None => truncated
          | Some (hd, rest1) =>
              if PY_SSIZE_T_MAX <? le_val hd then
                Stop (Err (UnpicklingError "FRAME length exceeds system's maximum"))
              else if Z.of_nat (List.length rest1) <? le_val hd then truncated
              else Next rest1 s m
          end
      | x2e =>                                          (* STOP *)
          match s with
          | SVal v :: _ => Stop (Ok v)
          | _ => underflow
          end
      | x4e => push PNone rest s m                      (* NONE *)
      | x88 => push (PBool true) rest s m               (* NEWTRUE *)
      | x89 => push (PBool false) rest s m              (* NEWFALSE *)
      | x4b =>                                          (* BININT1 *)
          match take 1 rest with
          | Some (hd, rest1) => push (PInt (le_val hd)) rest1 s m
          | None => truncated
          end
      | x4d =>                                          (* BININT2 *)
          match take 2 rest with
          | Some (hd, rest1) => push (PInt (le_val hd)) rest1 s m
          | None => truncated
          end
      | x4a =>                                          (* BININT *)
          match take 4 rest with
          | Some (hd, rest1) => push (PInt (decode_long hd)) rest1 s m
          | None => truncated
          end
      | x8a =>                                          (* LONG1 *)
          counted 1 false rest (fun d r => push (PInt (decode_long d)) r s m)
      | x8b =>                                          (* LONG4 *)
          counted 4 true rest (fun d r => push (PInt (decode_long d)) r s m)
      | x43 => counted 1 false rest (fun d r => push (PBytes d) r s m) (* SHORT_BINBYTES *)
      | x42 => counted 4 false rest (fun d r => push (PBytes d) r s m) (* BINBYTES *)
      | x8e => counted 8 false rest (fun d r => push (PBytes d) r s m) (* BINBYTES8 *)
      | x5d => push (PList []) rest s m                 (* EMPTY_LIST *)
      | x28 => Next rest (SMark :: s) m                 (* MARK *)
      | x94 =>                                          (* MEMOIZE *)
          match s with
          | SVal v :: _ => Next rest s (m ++ [v])
          | _ => underflow
          end
      | x61 =>                                          (* APPEND *)
          match s with
          | SVal v :: SVal (PList l) :: s' => Next rest (SVal (PList (l ++ [v])) :: s') m
          | SVal _ :: SVal _ :: _ => Stop (Err (UnpicklingError "APPEND to a non-list"))
          | _ => underflow
          end
      | x65 =>                                          (* APPENDS *)
          match pop_mark s [] with
          | Some (items, SVal (PList l) :: s') => Next rest (SVal (PList (l ++ items)) :: s') m
          | Some (_, SVal _ :: _) => Stop (Err (UnpicklingError "APPENDS to a non-list"))
          | _ => underflow
          end
      | _ => Stop (Err (UnpicklingError "invalid load key"))
      end
  end.

Fixpoint run (fuel : nat) (i : bytes) (s : list sitem) (m : list pyval) : res pyval :=
  match fuel with
  | O => Err EOFError
  | S f =>
      match step i s m with
      | Stop r => r
      | Next i' s' m' => run f i' s' m'
      end
  end.

(** Every opcode consumes at least one byte, so [length data + 1] steps
    always reach the end of the input. *)
Definition pickle_loads (data : bytes) : res pyval :=
  run (S (List.length data)) data [] [].

(** ** The [Checkpoint] object and its environment *)

(** [input_data]: [None], a path ([str]) or an in-memory iterable. *)
Inductive input : Type :=
| InNone
| InStr (path : string)
| InIter (items : list pyval).

Record Checkpoint : Type := mkCheckpoint {
  input_data : input;
  ckpt_file : option string;
  progress : list bytes }.

(** [Checkpoint.__init__]. *)
Definition init (input_data : input) (ckpt_file : option string) : Checkpoint :=
  mkCheckpoint input_data ckpt_file [].

(** What one call of the user callback does: return a value, raise, or
    be interrupted by SIGINT while it runs. *)
Inductive outcome : Type :=
| Returns (r : pyval)
| Raises
| Interrupted.

(** Observable effects, in order. *)
Inductive event : Type :=
| ECall (item : pyval)                      (* func(item, ...) is invoked *)
| EWrite (path : string) (snap : list bytes) (* ckpt_io('write') of progress *)
| ETouch (path : string)                     (* Path(ckpt_file).touch() *)
| ESkipped (n : Z)                           (* "Resuming ... Skipped n ..." *)
| EComplete                                  (* "The progress is at 100%..." *)
| ESigint.                                   (* signal.signal(SIGINT, handler) *)

(** The object, the file system (the gzip layer is lossless and is not
    modelled: a checkpoint file holds the pickle stream), the collections
    the input files decode to ([json.load], an external collaborator),
    the clock, whether [py7zr] is importable, and the trace. *)
Record world : Type := mkWorld {
  obj : Checkpoint;
  fs : string -> option bytes;
  input_files : string -> option (list pyval);
  now : Z;
  has_py7zr : bool;
  trace : list event }.

Definition set_obj (o : Checkpoint) (w : world) : world :=
  mkWorld o (fs w) (input_files w) (now w) (has_py7zr w) (trace w).
Definition set_fs (f : string -> option bytes) (w : world) : world :=
  mkWorld (obj w) f (input_files w) (now w) (has_py7zr w) (trace w).
Definition add_event (e : event) (w : world) : world :=
  mkWorld (obj w) (fs w) (input_files w) (now w) (has_py7zr w) (trace w ++ [e]).

Definition fs_write (p : string) (c : bytes) (f : string -> option bytes) :
    string -> option bytes :=
  fun q => if String.eqb q p then Some c else f q.

(** *** A state and exception monad *)

Definition M (A : Type) : Type := world -> res A * world.

Definition ret {A} (a : A) : M A := fun w => (Ok a, w).
Definition throw {A} (e : exc) : M A := fun w => (Err e, w).
Definition bind {A B} (c : M A) (k : A -> M B) : M B :=
  fun w => match c w with
           | (Ok a, w') => k a w'
           | (Err e, w') => (Err e, w')
           end.
Notation "x <- c ;; k" := (bind c (fun x => k))
  (at level 61, c at next level, right associativity).
Notation "c ;; k" := (bind c (fun _ => k)) (at level 61, right associativity).

Definition get : M world := fun w => (Ok w, w).
Definition modify (f : world -> world) : M unit := fun w => (Ok tt, f w).
Definition emit (e : event) : M unit := modify (add_event e).
Definition lift {A} (r : res A) : M A := fun w => (r, w).

Definition update_obj (f : Checkpoint -> Checkpoint) : M unit :=
  modify (fun w => set_obj (f (obj w)) w).

(** *** [Checkpoint.insert] *)

Definition insert (input_data : input) : M unit :=
  update_obj (fun o => mkCheckpoint input_data (ckpt_file o) (progress o)).

(** *** [Checkpoint.ckpt_io] *)

Definition ckpt_write : M unit :=
  w <- get;;
  match ckpt_file (obj w) with
  | Some p =>
      let snap := progress (obj w) in
      modify (set_fs (fs_write p (pickle_dumps (PList (map PBytes snap))) (fs w)));;
      emit (EWrite p snap)
  | None => throw TypeError                      (* gzip.open(None) *)
  end.

Definition ckpt_read : M pyval :=
  w <- get;;
  match ckpt_file (obj w) with
  | Some p =>
      match fs w p with
      | Some c => lift (pickle_loads c)
      | None => throw (FileNotFoundError "No such file or directory")
      end
  | None => throw TypeError
  end.

(** [ckpt_io(mode)]: any other mode does nothing and returns [None]. *)
Definition ckpt_io (mode : string) : M (option pyval) :=
  if String.eqb mode "write" then ckpt_write;; ret None
  else if String.eqb mode "read" then v <- ckpt_read;; ret (Some v)
  else ret None.

(** [Checkpoint.keyboard_interrupt_handler]. *)
Definition keyboard_interrupt_handler {A} : M A :=
  ckpt_write;; throw (SystemExit 1).

(** *** [Checkpoint.read_data] *)

Definition slash : ascii := "/"%char.
Definition dot : ascii := "."%char.

(** A component ends: pathlib keeps it unless it is empty or [.]. *)
Definition path_part (cur last : list ascii) : list ascii :=
  match cur with
  | [] => last
  | [c] => if Ascii.eqb c dot then last else cur
  | _ => cur
  end.

(** [Path(p).name]: the last component that is neither empty nor [.]
    (pathlib drops both when it splits the path). *)
Definition path_name (p : string) : list ascii :=
  let '(cur, last) :=
    fold_left (fun '(cur, last) c =>
                 if Ascii.eqb c slash
                 then ([], path_part cur last)
                 else (cur ++ [c], last))
              (list_ascii_of_string p) ([], []) in
  path_part cur last.

Fixpoint rfind (c : ascii) (l : list ascii) (i : nat) (found : option nat) : option nat :=
  match l with
  | [] => found
  | d :: r => rfind c r (S i) (if Ascii.eqb c d then Some i else found)
  end.

(** [Path(p).suffix]. *)
Definition path_suffix (p : string) : string :=
  let nm := path_name p in
  match rfind dot nm 0 None with
  | Some i =>
      if Nat.ltb 0 i && Nat.ltb i (pred (List.length nm))
      then string_of_list_ascii (skipn i nm) else ""
  | None => ""
  end.

Definition lower_ascii (c : ascii) : ascii :=
  let n := nat_of_ascii c in
  if Nat.leb 65 n && Nat.leb n 90 then ascii_of_nat (n + 32) else c.

Definition lower (s : string) : string :=
  string_of_list_ascii (map lower_ascii (list_ascii_of_string s)).

Definition json_load (p : string) : M (list pyval) :=
  w <- get;;
  match input_files w p with
  | Some l => ret l
  | None => throw (FileNotFoundError ("No such file or directory: " ++ p))
  end.

(** The message of the [NotImplementedError] of [read_data] (the source's
    adjacent literals joined; [010] is its newline). *)
Definition unsupported_msg : string :=
  ("Input file format is not supported! Pass an iterable object " ++
   "instead." ++ String "010"%char
   "Supported file formats for reading directly from " ++
   "a file: (.json, .7zip|.7z, .gzip|.gz)")%string.

Definition read_data (p : string) : M (list pyval) :=
  let suffix := lower (path_suffix p) in
  if String.eqb suffix ".7z" || String.eqb suffix ".7zip" then
    w <- get;;
    if has_py7zr w then json_load p
    else throw (ImportError "py7zr is not installed! Install with: `pip install py7zr`")
  else if String.eqb suffix ".json" then json_load p
  else if String.eqb suffix ".gz" || String.eqb suffix ".gzip" then json_load p
  else throw (NotImplementedError unsupported_msg).
(** *** [Checkpoint.check_progress] *)

Fixpoint digits (fuel : nat) (n : Z) (acc : list ascii) : list ascii :=
  match fuel with
  | O => acc
  | S f =>
      let acc' := ascii_of_nat (48 + Z.to_nat (n mod 10)) :: acc in
      if n <? 10 then acc' else digits f (n / 10) acc'
  end.

(** [str(z)] for an [int]. *)
Definition str_of_Z (z : Z) : string :=
  let fuel := S (Z.to_nat (Z.log2 (Z.abs z))) in
  string_of_list_ascii
    (if z <? 0 then "-"%char :: digits fuel (- z) [] else digits fuel z []).

(** [for x in v]: lists yield their items, bytes their integers. *)
Definition iter (v : pyval) : res (list pyval) :=
  match v with
  | PList l => Ok l
  | PBytes b => Ok (map (fun c => PInt (Z_of_byte c)) b)
  | _ => Err TypeError
  end.

(** [m in progress] on a list of bytes. *)
Definition mem (m : bytes) (l : list bytes) : bool := existsb (bytes_eqb m) l.

Definition ckpt_missing_msg : string := "The path to the checkpoint file does not exist!".

(** [Path(p).touch()]: creates an empty file, keeps an existing one. *)
Definition touch (p : string) : M unit :=
  modify (fun w => set_fs (fun q => if String.eqb q p then
                                      match fs w q with
                                      | Some c => Some c
                                      | None => Some []
                                      end
                                    else fs w q) w);;
  emit (ETouch p).

Definition check_progress : M (list pyval) :=
  w <- get;;
  (match ckpt_file (obj w) with
   | None | Some EmptyString =>                  (* not self.ckpt_file *)
       let p := (str_of_Z (now w) ++ ".ckpt")%string in
       update_obj (fun o => mkCheckpoint (input_data o) (Some p) (progress o));;
       touch p
   | Some p =>
       match fs w p with                         (* Path(p).exists() *)
       | Some _ =>
           data <- ckpt_read;;
           xs <- lift (iter data);;
           update_obj (fun o => mkCheckpoint (input_data o) (ckpt_file o)
                                  (progress o ++ map _encode xs));;
           emit (ESkipped (Z.of_nat (List.length xs)))
       | None => throw (FileNotFoundError ckpt_missing_msg)
       end
   end);;
  w <- get;;
  data <- (match input_data (obj w) with
           | InStr p => read_data p
           | InIter l => ret l
           | InNone => throw TypeError            (* iterating over None *)
           end);;
  w <- get;;
  ret (filter (fun x => negb (mem (_encode x) (progress (obj w)))) data).
(** *** [Checkpoint.record] *)

Definition append_progress (m : bytes) : M unit :=
  update_obj (fun o => mkCheckpoint (input_data o) (ckpt_file o) (progress o ++ [m])).

(** The [for n, item in iterable] loop: [idx] is the index [enumerate]
    yields, [every] the current value of [checkpoint_every]. *)
Fixpoint loop (func : pyval -> outcome) (items : list pyval) (idx every : Z)
    (results : list pyval) : M (list pyval) :=
  match items with
  | [] => ret results
  | item :: rest =>
      emit (ECall item);;
      match func item with
      | Raises => throw CallbackError
      | Interrupted => keyboard_interrupt_handler
      | Returns r =>
          let results := results ++ [r] in
          append_progress (_encode item);;
          let n := idx + 1 in
          if n =? every then
            ckpt_write;;
            loop func rest (idx + 1) (every + every) results
          else loop func rest (idx + 1) every results
      end
  end.

(** [record(func, checkpoint_every, show_progress)]; the [tqdm] wrapper
    chosen by [show_progress] yields the same items, and [*args, **kwargs]
    are part of [func].  [None] is the [return] of an empty work set. *)
Definition record (func : pyval -> outcome) (checkpoint_every : Z)
    (show_progress : bool) : M (option (list pyval)) :=
  data <- check_progress;;
  match data with
  | [] => emit EComplete;; ret None
  | _ =>
      emit ESigint;;
      results <- loop func data 0 checkpoint_every [];;
      ckpt_write;;
      ret (Some results)
  end.

(** ** Observations on traces *)

Fixpoint calls (t : list event) : list pyval :=
  match t with
  | [] => []
  | ECall x :: t' => x :: calls t'
  | _ :: t' => calls t'
  end.

Fixpoint writes (t : list event) : list (list bytes) :=
  match t with
  | [] => []
  | EWrite _ snap :: t' => snap :: writes t'
  | _ :: t' => writes t'
  end.

(** For each checkpoint write, the number of callback calls before it. *)
Fixpoint write_points (t : list event) (k : Z) : list Z :=
  match t with
  | [] => []
  | ECall _ :: t' => write_points t' (k + 1)
  | EWrite _ _ :: t' => k :: write_points t' k
  | _ :: t' => write_points t' k
  end.

(** ** Proof device: base64 decoding *)

Definition b64_val (c : byte) : Z :=
  let n := Z_of_byte c in
  if (65 <=? n) && (n <=? 90) then n - 65
  else if (97 <=? n) && (n <=? 122) then n - 71
  else if (48 <=? n) && (n <=? 57) then n + 4
  else if n =? 43 then 62
  else 63.

Fixpoint b64decode (l : bytes) : bytes :=
  match l with
  | c0 :: c1 :: c2 :: c3 :: rest =>
      let n := b64_val c0 * 2 ^ 18 + b64_val c1 * 2 ^ 12
               + (if Byte.eqb c2 b64_pad then 0 else b64_val c2 * 2 ^ 6)
               + (if Byte.eqb c3 b64_pad then 0 else b64_val c3) in
      if Byte.eqb c2 b64_pad then [byte_of_Z (n / 2 ^ 16)]
      else if Byte.eqb c3 b64_pad then [byte_of_Z (n / 2 ^ 16); byte_of_Z (n / 2 ^ 8)]
      else byte_of_Z (n / 2 ^ 16) :: byte_of_Z (n / 2 ^ 8) :: byte_of_Z n :: b64decode rest
  | _ => []
  end.

(** ** Objects of the proofs *)

(** The world after one [func] call that returned, and after one checkpoint write. *)
Definition after_call (x : pyval) (w : world) : world :=
  let w1 := add_event (ECall x) w in
  set_obj (mkCheckpoint (input_data (obj w1)) (ckpt_file (obj w1))
                        (progress (obj w1) ++ [_encode x])) w1.

Definition after_write (p : string) (w : world) : world :=
  add_event (EWrite p (progress (obj w)))
    (set_fs (fs_write p (pickle_dumps (PList (map PBytes (progress (obj w))))) (fs w)) w).

(** The values [t], [2t], [4t], ... that are at most [m] ([fuel] bounds
    their number). *)
Fixpoint doubling_schedule (fuel : nat) (t m : Z) : list Z :=
  match fuel with
  | O => []
  | S f => if t <=? m then t :: doubling_schedule f (t + t) m else []
  end.

(** Periodic flush points of a run of [m] items with [checkpoint_every = F]:
    after [F], [2F], [4F], ... completed items counted from the start of the run. *)
Definition flush_schedule (F m : Z) : list Z := doubling_schedule (Z.to_nat m) F m.

(** [a] is a prefix of [b]. *)
Definition prefix (a b : list bytes) : Prop := exists s, b = a ++ s.

(** Every element of the list is a prefix of every later one. *)
Fixpoint prefix_chain (l : list (list bytes)) : Prop :=
  match l with
  | [] => True
  | a :: r => Forall (prefix a) r /\ prefix_chain r
  end.

(** From [w] to [w']: the trace is extended by [t], the progress list is
    only appended to, and the snapshots written in [t] form a prefix chain
    between the progress at [w] and the progress at [w']. *)
Definition Inv (w w' : world) : Prop :=
  exists t, trace w' = trace w ++ t /\
    prefix (progress (obj w)) (progress (obj w')) /\
    prefix_chain (writes t) /\
    Forall (fun s => prefix (progress (obj w)) s /\ prefix s (progress (obj w'))) (writes t).

(** Computations that keep [Inv] from their initial to their final world. *)
Definition mono {A} (c : M A) : Prop := forall w, Inv w (snd (c w)).

(** Callbacks of the scenarios: [item*10] on ints, raising on anything else. *)
Definition times10 (x : pyval) : outcome :=
  match x with
  | PInt z => Returns (PInt (z * 10))
  | _ => Raises
  end.

Definition no_files : string -> option (list pyval) := fun _ => None.

(** A run on an in-memory collection, without a checkpoint path, at time 1700000000. *)
Definition fresh_world (data : list pyval) : world :=
  mkWorld (init (InIter data) None) (fun _ => None) no_files 1700000000 false [].

(** A run resuming from [run.ckpt], a checkpoint that an earlier run wrote
    after completing the items [done] (its progress list of markers). *)
Definition resume_world (data done : list pyval) : world :=
  mkWorld (init (InIter data) (Some "run.ckpt"%string))
    (fun q => if String.eqb q "run.ckpt"%string
              then Some (pickle_dumps (PList (map PBytes (map _encode done)))) else None)
    no_files 1700000000 false [].

(** An object with checkpoint path [a.ckpt] and progress list [L]. *)
Definition store_world (L : list bytes) : world :=
  mkWorld (mkCheckpoint InNone (Some "a.ckpt"%string) L) (fun _ => None) no_files 0 false [].

(** A fresh object on the input file [path], at time 1700000000, where
    the file [path] decodes to [data] (if given) and [py7zr] is importable
    when [py7] is set. *)
Definition path_world (path : string) (data : option (list pyval)) (py7 : bool) : world :=
  mkWorld (init (InStr path) None) (fun _ => None)
    (fun q => if String.eqb q path then data else None) 1700000000 py7 [].

(** The world after [self.ckpt_file = q] and [Path(q).touch()]. *)
Definition touched (w : world) (q : string) : world :=
  add_event (ETouch q)
    (set_fs (fun r => if String.eqb r q then
                        match fs w r with Some c => Some c | None => Some [] end
                      else fs w r)
       (set_obj (mkCheckpoint (input_data (obj w)) (Some q) (progress (obj w))) w)).

(** The message [read_data] raises with when [py7zr] is missing. *)
Definition py7zr_msg : string := "py7zr is not installed! Install with: `pip install py7zr`".

(** A callback interrupted (SIGINT) while it works on [2], [item*10] otherwise. *)
Definition interrupt_at_2 (x : pyval) : outcome :=
  match x with
  | PInt 2 => Interrupted
  | _ => times10 x
  end.

(** Induction on values, with the hypothesis on every item of a list. *)
Fixpoint pyval_ind' (P : pyval -> Prop) (HN : P PNone) (HB : forall b, P (PBool b))
    (HI : forall z, P (PInt z)) (HY : forall bs, P (PBytes bs))
    (HL : forall l, Forall P l -> P (PList l)) (v : pyval) {struct v} : P v :=
  match v with
  | PNone => HN
  | PBool b => HB b
  | PInt z => HI z
  | PBytes bs => HY bs
  | PList l =>
      HL l ((fix go (l : list pyval) : Forall P l :=
               match l with
               | [] => Forall_nil P
               | x :: r => Forall_cons x (pyval_ind' P HN HB HI HY HL x) (go r)
               end) l)
  end.

(** The sizes the unpickler accepts: each [int] of the value that needs
    [LONG4] has fewer than [2^31] bytes (a signed 4-byte count), each
    [bytes] object at most [PY_SSIZE_T_MAX]. *)
Fixpoint fits (v : pyval) : bool :=
  match v with
  | PInt z => len (encode_long z) <? 2 ^ 31
  | PBytes bs => len bs <=? PY_SSIZE_T_MAX
  | PList l => forallb fits l
  | _ => true
  end.

(** ** Lemmas on bytes *)

Lemma Z_of_byte_range (b : byte) : 0 <= Z_of_byte b < 256.
Proof.
  unfold Z_of_byte. pose proof (Byte.to_N_bounded b). lia.
Qed.

Lemma byte_of_Z_of_byte (b : byte) : byte_of_Z (Z_of_byte b) = b.
Proof.
  unfold byte_of_Z, Z_of_byte. pose proof (Byte.to_N_bounded b).
  rewrite Z.mod_small by lia. rewrite N2Z.id, Byte.of_to_N. reflexivity.
Qed.

Lemma Z_of_byte_of_Z (z : Z) : Z_of_byte (byte_of_Z z) = z mod 256.
Proof.
  unfold byte_of_Z, Z_of_byte.
  pose proof (Z.mod_pos_bound z 256 ltac:(lia)) as Hb.
  destruct (Byte.of_N (Z.to_N (z mod 256))) as [b|] eqn:E.
  - apply Byte.to_of_N in E. rewrite E. lia.
  - apply Byte.of_N_None_iff in E. lia.
Qed.

Lemma byte_of_Z_mod (z : Z) : byte_of_Z (z mod 256) = byte_of_Z z.
Proof. unfold byte_of_Z. rewrite Z.mod_mod by lia. reflexivity. Qed.

Lemma byte_of_Z_eq (z : Z) (b : byte) : z mod 256 = Z_of_byte b -> byte_of_Z z = b.
Proof. intros H. rewrite <- byte_of_Z_mod, H. apply byte_of_Z_of_byte. Qed.

(** ** base64 decodes what it encodes *)

Lemma in_sextets (i : Z) : 0 <= i < 64 -> In i (map Z.of_nat (seq 0 64)).
Proof.
  intros Hi. apply in_map_iff. exists (Z.to_nat i). split; [lia|].
  apply in_seq. lia.
Qed.

Lemma b64_val_char (i : Z) : 0 <= i < 64 -> b64_val (b64_char i) = i.
Proof.
  intros Hi. apply in_sextets in Hi.
  assert (Hall : forallb (fun k => Z.eqb (b64_val (b64_char k)) k)
                   (map Z.of_nat (seq 0 64)) = true) by (vm_compute; reflexivity).
  rewrite forallb_forall in Hall. apply Z.eqb_eq, Hall, Hi.
Qed.

Lemma b64_char_not_pad (i : Z) : 0 <= i < 64 -> Byte.eqb (b64_char i) b64_pad = false.
Proof.
  intros Hi. apply in_sextets in Hi.
  assert (Hall : forallb (fun k => negb (Byte.eqb (b64_char k) b64_pad))
                   (map Z.of_nat (seq 0 64)) = true) by (vm_compute; reflexivity).
  rewrite forallb_forall in Hall. apply Hall in Hi. destruct (Byte.eqb _ _); easy.
Qed.

Lemma b64_val_sextet (n k : Z) : 0 <= k -> b64_val (sextet n k) = (n / 2 ^ k) mod 64.
Proof.
  intros Hk. unfold sextet.
  change 63 with (Z.ones 6). rewrite Z.land_ones, Z.shiftr_div_pow2 by lia.
  apply b64_val_char. apply Z.mod_pos_bound. lia.
Qed.

Lemma sextet_not_pad (n k : Z) : Byte.eqb (sextet n k) b64_pad = false.
Proof.
  unfold sextet. apply b64_char_not_pad.
  change 63 with (Z.ones 6). rewrite Z.land_ones by lia. apply Z.mod_pos_bound. lia.
Qed.

Lemma pad_pad : Byte.eqb b64_pad b64_pad = true.
Proof. reflexivity. Qed.

Ltac b64_arith :=
  change (2 ^ 18) with 262144 in *; change (2 ^ 16) with 65536 in *;
  change (2 ^ 12) with 4096 in *; change (2 ^ 8) with 256 in *;
  change (2 ^ 6) with 64 in *; change (2 ^ 0) with 1 in *;
  Z.div_mod_to_equations; lia.

Lemma b64decode_encode (l : bytes) : b64decode (b64encode l) = l.
Proof.
  revert l. fix IH 1.
  intros [|a [|b [|c rest]]]; [reflexivity| | |].
  all: cbn [b64encode b64decode]; rewrite ?sextet_not_pad, ?pad_pad;
       rewrite ?b64_val_sextet by lia; rewrite ?Z.shiftl_mul_pow2 by lia;
       pose proof (Z_of_byte_range a).
  - f_equal. apply byte_of_Z_eq. b64_arith.
  - pose proof (Z_of_byte_range b).
    f_equal; [|f_equal]; apply byte_of_Z_eq; b64_arith.
  - pose proof (Z_of_byte_range b). pose proof (Z_of_byte_range c).
    rewrite IH. f_equal; [|f_equal; [|f_equal]]; apply byte_of_Z_eq; b64_arith.
Qed.

(** ** The unpickler always terminates within its fuel *)

Lemma take_length (n : nat) (l a b : bytes) :
  take n l = Some (a, b) -> l = a ++ b /\ List.length a = n.
Proof.
  unfold take. intros E. destruct (Nat.leb_spec n (List.length l)) as [Hle|Hgt];
  inversion E; subst.
  split; [symmetry; apply firstn_skipn | apply firstn_length_le; lia].
Qed.

Lemma take_app (a b : bytes) : take (List.length a) (a ++ b) = Some (a, b).
Proof.
  unfold take. rewrite length_app.
  destruct (Nat.leb_spec (List.length a) (List.length a + List.length b)); [|lia].
  rewrite firstn_app, skipn_app, firstn_all, skipn_all, Nat.sub_diag; simpl.
  rewrite app_nil_r. reflexivity.
Qed.

Lemma step_shrinks (i : bytes) s m i' s' m' :
  step i s m = Next i' s' m' -> (List.length i' < List.length i)%nat.
Proof.
  intros H. destruct i as [|op rest]; [discriminate|].
  unfold step in H. destruct op; unfold counted, push in H;
  repeat match type of H with
         | context [match ?x with _ => _ end] => let E := fresh "E" in destruct x eqn:E
         end; try discriminate; inversion H; subst; clear H;
  repeat match goal with
         | E : take _ _ = Some (_, _) |- _ =>
             apply take_length in E; destruct E as [? ?]; subst
         end;
  idtac.
  all: simpl; rewrite ?length_app; simpl; rewrite ?length_app; lia.
Qed.

Lemma run_fuel (f1 f2 : nat) (i : bytes) s m :
  (List.length i < f1)%nat -> (List.length i < f2)%nat -> run f1 i s m = run f2 i s m.
Proof.
  revert f2 i s m. induction f1 as [|f1 IH]; intros [|f2] i s m H1 H2; try lia.
  simpl. destruct (step i s m) as [i' s' m'|r] eqn:E; [|reflexivity].
  apply step_shrinks in E. apply IH; lia.
Qed.

(** Running the unpickler with enough fuel. *)
Definition exec (i : bytes) (s : list sitem) (m : list pyval) : res pyval :=
  run (S (List.length i)) i s m.

(** The opcodes of [v], followed by [rest], push [v] and go on with [rest]. *)
Definition loads_back (v : pyval) : Prop :=
  forall rest s m, exists m', exec (save v ++ rest) s m = exec rest (SVal v :: s) m'.

Lemma run_S (f : nat) (i : bytes) s m :
  run (S f) i s m = match step i s m with
                    | Stop r => r
                    | Next i' s' m' => run f i' s' m'
                    end.
Proof. reflexivity. Qed.

Lemma exec_step (i : bytes) s m i' s' m' :
  step i s m = Next i' s' m' -> exec i s m = exec i' s' m'.
Proof.
  intros E. unfold exec. rewrite (run_S (List.length i)), E.
  apply step_shrinks in E. apply run_fuel; lia.
Qed.

Lemma exec_stop (i : bytes) s m r : step i s m = Stop r -> exec i s m = r.
Proof. intros E. unfold exec. rewrite run_S, E. reflexivity. Qed.

(** ** Little-endian counts read back *)

Lemma length_le_bytes (n : nat) (z : Z) : List.length (le_bytes n z) = n.
Proof. revert z. induction n; intros z; simpl; [|rewrite IHn]; reflexivity. Qed.

Lemma le_val_le_bytes (n : nat) (z : Z) : le_val (le_bytes n z) = z mod 2 ^ (8 * Z.of_nat n).
Proof.
  revert z. induction n as [|n IH]; intros z; simpl le_bytes; simpl le_val.
  - rewrite Z.mod_1_r. reflexivity.
  - rewrite IH, Z_of_byte_of_Z.
    replace (8 * Z.of_nat (S n)) with (8 + 8 * Z.of_nat n) by lia.
    rewrite Z.pow_add_r by lia. change (2 ^ 8) with 256.
    rewrite Z.rem_mul_r by (try apply Z.pow_pos_nonneg; lia). reflexivity.
Qed.

Lemma le_val_byte (z : Z) : 0 <= z <= 255 -> le_val [byte_of_Z z] = z.
Proof. intros H. simpl. rewrite Z_of_byte_of_Z, Z.mod_small; lia. Qed.

Lemma len_nonneg (l : bytes) : 0 <= len l.
Proof. unfold len. lia. Qed.

Lemma counted_ok (k : nat) (hd data rest : bytes) (f : bytes -> bytes -> stepres) :
  List.length hd = k -> le_val hd = len data -> len data <= PY_SSIZE_T_MAX ->
  counted k false (hd ++ data ++ rest) f = f data rest.
Proof.
  intros Hk Hv Hmax. unfold counted. rewrite <- Hk, take_app, Hv.
  pose proof (len_nonneg data).
  destruct (len data <? 0) eqn:E1; [apply Z.ltb_lt in E1; lia|].
  destruct (PY_SSIZE_T_MAX <? len data) eqn:E2; [apply Z.ltb_lt in E2; lia|]. simpl.
  unfold len. rewrite Nat2Z.id, take_app. reflexivity.
Qed.

Lemma exec_save_bytes (b rest : bytes) s m :
  len b <= PY_SSIZE_T_MAX ->
  exec (save_bytes b ++ rest) s m = exec rest (SVal (PBytes b) :: s) (m ++ [PBytes b]).
Proof.
  intros Hb. pose proof (len_nonneg b) as H0. unfold save_bytes.
  assert (Hmem : step (Op.MEMOIZE :: rest) (SVal (PBytes b) :: s) m
                 = Next rest (SVal (PBytes b) :: s) (m ++ [PBytes b])) by reflexivity.
  destruct (len b <=? 255) eqn:E1; [|destruct (len b <=? 4294967295) eqn:E2];
  [ apply Z.leb_le in E1
  | apply Z.leb_gt in E1; apply Z.leb_le in E2
  | apply Z.leb_gt in E1; apply Z.leb_gt in E2 ];
  rewrite <- !app_assoc; simpl app.
  - rewrite (exec_step _ _ _ (Op.MEMOIZE :: rest) (SVal (PBytes b) :: s) m), (exec_step _ _ _ _ _ _ Hmem);
      [reflexivity|].
    change (counted 1 false ([byte_of_Z (len b)] ++ b ++ [Op.MEMOIZE] ++ rest)
              (fun d r => push (PBytes d) r s m) = Next (Op.MEMOIZE :: rest) (SVal (PBytes b) :: s) m).
    rewrite counted_ok; [reflexivity | reflexivity | apply le_val_byte; lia | lia].
  - rewrite (exec_step _ _ _ (Op.MEMOIZE :: rest) (SVal (PBytes b) :: s) m), (exec_step _ _ _ _ _ _ Hmem);
      [reflexivity|].
    change (counted 4 false (le_bytes 4 (len b) ++ b ++ [Op.MEMOIZE] ++ rest)
              (fun d r => push (PBytes d) r s m) = Next (Op.MEMOIZE :: rest) (SVal (PBytes b) :: s) m).
    rewrite counted_ok; [reflexivity | apply length_le_bytes | | lia].
    rewrite le_val_le_bytes, Z.mod_small; [reflexivity|]. simpl. lia.
  - rewrite (exec_step _ _ _ (Op.MEMOIZE :: rest) (SVal (PBytes b) :: s) m), (exec_step _ _ _ _ _ _ Hmem);
      [reflexivity|].
    change (counted 8 false (le_bytes 8 (len b) ++ b ++ [Op.MEMOIZE] ++ rest)
              (fun d r => push (PBytes d) r s m) = Next (Op.MEMOIZE :: rest) (SVal (PBytes b) :: s) m).
    rewrite counted_ok; [reflexivity | apply length_le_bytes | | lia].
    rewrite le_val_le_bytes, Z.mod_small; [reflexivity|]. unfold PY_SSIZE_T_MAX in Hb. simpl. lia.
Qed.

(** ** A pickled list of bytes loads back *)

Lemma pop_mark_vals (cur : list pyval) (s : list sitem) (acc : list pyval) :
  pop_mark (rev (map SVal cur) ++ SMark :: s) acc = Some (cur ++ acc, s).
Proof.
  revert acc. induction cur as [|x cur IH] using rev_ind; intros acc; [reflexivity|].
  rewrite map_app, rev_app_distr. simpl. rewrite IH, <- app_assoc. reflexivity.
Qed.

Lemma exec_batch (L : list bytes) (cnt : nat) (cur acc : list pyval) s m rest :
  Forall (fun b => len b <= PY_SSIZE_T_MAX) L ->
  exists m', exec (batch_appends (map save_bytes L) cnt ++ rest)
                  (rev (map SVal cur) ++ SMark :: SVal (PList acc) :: s) m
             = exec rest (SVal (PList (acc ++ cur ++ map PBytes L)) :: s) m'.
Proof.
  revert cnt cur acc m. induction L as [|b L IH]; intros cnt cur acc m HL; simpl.
  - exists m. apply exec_step. simpl. rewrite pop_mark_vals, !app_nil_r. reflexivity.
  - inversion HL as [|? ? Hb HL']; subst.
    destruct (Nat.eqb cnt BATCHSIZE).
    + rewrite (exec_step _ _ _ (Op.MARK :: save_bytes b ++ batch_appends (map save_bytes L) 1 ++ rest)
                 (SVal (PList (acc ++ cur)) :: s) m)
        by (simpl; rewrite pop_mark_vals, app_nil_r, <- app_assoc; reflexivity).
      rewrite (exec_step _ _ _ (save_bytes b ++ batch_appends (map save_bytes L) 1 ++ rest)
                 (SMark :: SVal (PList (acc ++ cur)) :: s) m) by reflexivity.
      rewrite exec_save_bytes by exact Hb.
      destruct (IH 1%nat [PBytes b] (acc ++ cur) (m ++ [PBytes b]) HL') as [m' Hm'].
      exists m'. simpl in Hm'. rewrite Hm', <- !app_assoc. reflexivity.
    + rewrite <- app_assoc, exec_save_bytes by exact Hb.
      destruct (IH (S cnt) (cur ++ [PBytes b]) acc (m ++ [PBytes b]) HL') as [m' Hm'].
      exists m'. rewrite map_app, rev_app_distr in Hm'. simpl in Hm'.
      rewrite Hm', <- !app_assoc. reflexivity.
Qed.

Lemma save_bytes_list (L : list bytes) :
  save (PList (map PBytes L)) = save_list (map save_bytes L).
Proof. simpl. rewrite map_map. reflexivity. Qed.

Lemma length_save_bytes (b : bytes) : (List.length b < List.length (save_bytes b))%nat.
Proof.
  unfold save_bytes. rewrite length_app, length_app. simpl. lia.
Qed.

Lemma length_in_batch (L : list bytes) (b : bytes) (cnt : nat) :
  In b L -> (List.length b <= List.length (batch_appends (map save_bytes L) cnt))%nat.
Proof.
  revert cnt. induction L as [|x L IH]; intros cnt Hin; [destruct Hin|].
  pose proof (length_save_bytes x).
  destruct Hin as [<-|Hin]; [|pose proof (IH 1%nat Hin); pose proof (IH (S cnt) Hin)];
  simpl; destruct (Nat.eqb cnt BATCHSIZE); simpl; rewrite ?length_app; lia.
Qed.

Lemma length_in_save_list (L : list bytes) (b : bytes) :
  In b L -> (List.length b <= List.length (save_list (map save_bytes L)))%nat.
Proof.
  intros Hin. unfold save_list.
  destruct L as [|x [|y L]]; [destruct Hin| |].
  - destruct Hin as [->|[]]. simpl. pose proof (length_save_bytes b).
    rewrite length_app. lia.
  - pose proof (length_in_batch (x :: y :: L) b 0 Hin). simpl in *. lia.
Qed.

Lemma loads_dumps_bytes_list (L : list bytes) :
  len (pickle_dumps (PList (map PBytes L))) <= PY_SSIZE_T_MAX ->
  pickle_loads (pickle_dumps (PList (map PBytes L))) = Ok (PList (map PBytes L)).
Proof.
  intros Hmax.
  set (payload := save (PList (map PBytes L)) ++ [Op.STOP]).
  assert (Hpay : len payload <= PY_SSIZE_T_MAX).
  { revert Hmax. unfold pickle_dumps, frame, len. fold payload.
    destruct (4 <=? Z.of_nat (List.length payload)); simpl;
    rewrite ?length_app, ?length_le_bytes; lia. }
  assert (HL : Forall (fun b => len b <= PY_SSIZE_T_MAX) L).
  { apply Forall_forall. intros b Hin. apply (length_in_save_list L b) in Hin.
    revert Hpay. unfold payload, len. rewrite save_bytes_list, length_app. lia. }
  unfold pickle_loads. change (run _ ?d [] []) with (exec d [] []).
  unfold pickle_dumps. fold payload.
  rewrite (exec_step _ _ _ (frame payload) [] []) by reflexivity.
  assert (Hframe : exec (frame payload) [] [] = exec payload [] []).
  { unfold frame. destruct (4 <=? len payload); [|reflexivity].
    apply exec_step. cbv beta iota zeta delta [step Op.FRAME].
    rewrite <- (length_le_bytes 8 (len payload)) at 1.
    rewrite take_app, le_val_le_bytes.
    pose proof (len_nonneg payload).
    rewrite Z.mod_small by (unfold PY_SSIZE_T_MAX in Hpay; simpl; lia).
    destruct (PY_SSIZE_T_MAX <? len payload) eqn:E1; [apply Z.ltb_lt in E1; lia|].
    unfold len. rewrite Z.ltb_irrefl. reflexivity. }
  rewrite Hframe. unfold payload. rewrite save_bytes_list. unfold save_list.
  rewrite (exec_step _ _ _ _ [SVal (PList [])] [] ) by reflexivity.
  rewrite (exec_step _ _ _ _ [SVal (PList [])] [PList []]) by reflexivity.
  destruct L as [|b [|b' L']].
  - apply exec_stop. reflexivity.
  - inversion HL; subst.
    change (exec ((save_bytes b ++ [Op.APPEND]) ++ [Op.STOP]) [SVal (PList [])] [PList []]
            = Ok (PList [PBytes b])).
    rewrite <- app_assoc, exec_save_bytes by assumption.
    rewrite (exec_step _ _ _ [Op.STOP] [SVal (PList [PBytes b])] _) by reflexivity.
    apply exec_stop. reflexivity.
  - change (exec (Op.MARK :: batch_appends (map save_bytes (b :: b' :: L')) 0 ++ [Op.STOP])
                 [SVal (PList [])] [PList []]
            = Ok (PList (map PBytes (b :: b' :: L')))).
    rewrite (exec_step _ _ _ _ (SMark :: [SVal (PList [])]) [PList []]) by reflexivity.
    destruct (exec_batch (b :: b' :: L') 0 [] [] [] [PList []] [Op.STOP] HL) as [m' Hm'].
    refine (eq_trans Hm' _). apply exec_stop. reflexivity.
Qed.

Lemma ckpt_write_at (w : world) (p : string) :
  ckpt_file (obj w) = Some p -> ckpt_write w = (Ok tt, after_write p w).
Proof. intros Hp. unfold ckpt_write, bind, get. rewrite Hp. reflexivity. Qed.

Lemma loop_returns func x rest idx every results (w : world) r p :
  func x = Returns r -> ckpt_file (obj w) = Some p ->
  loop func (x :: rest) idx every results w =
  if idx + 1 =? every
  then loop func rest (idx + 1) (every + every) (results ++ [r]) (after_write p (after_call x w))
  else loop func rest (idx + 1) every (results ++ [r]) (after_call x w).
Proof.
  intros Hf Hp. cbn [loop]. unfold bind at 1, emit, modify. rewrite Hf.
  unfold append_progress, update_obj, bind at 1, modify, get.
  destruct (idx + 1 =? every); [|reflexivity].
  unfold bind at 1. rewrite (ckpt_write_at _ p) by exact Hp. reflexivity.
Qed.

Lemma loop_raises func x rest idx every results (w : world) :
  func x = Raises ->
  loop func (x :: rest) idx every results w = (Err CallbackError, add_event (ECall x) w).
Proof. intros Hf. cbn [loop]. unfold bind at 1, emit, modify. rewrite Hf. reflexivity. Qed.

Lemma doubling_schedule_fuel (f1 f2 : nat) (t m : Z) :
  1 <= t -> (Z.to_nat (m - t + 1) <= f1)%nat -> (Z.to_nat (m - t + 1) <= f2)%nat ->
  doubling_schedule f1 t m = doubling_schedule f2 t m.
Proof.
  revert f2 t. induction f1 as [|f1 IH]; intros [|f2] t Ht H1 H2; simpl; try reflexivity.
  - destruct (t <=? m) eqn:E; [apply Z.leb_le in E; lia | reflexivity].
  - destruct (t <=? m) eqn:E; [apply Z.leb_le in E; lia | reflexivity].
  - destruct (t <=? m) eqn:E; [|reflexivity]. apply Z.leb_le in E.
    f_equal. apply IH; lia.
Qed.

(** ** The loop when every callback returns *)

Lemma loop_ok func (items : list pyval) idx every results (w : world) p :
  ckpt_file (obj w) = Some p ->
  (forall x, In x items -> exists r, func x = Returns r) ->
  exists rs w' t,
    loop func items idx every results w = (Ok (results ++ rs), w') /\
    obj w' = mkCheckpoint (input_data (obj w)) (Some p) (progress (obj w) ++ map _encode items) /\
    trace w' = trace w ++ t /\ calls t = items /\
    (0 <= idx < every ->
     write_points t idx
     = doubling_schedule (List.length items) every (idx + Z.of_nat (List.length items))).
Proof.
  revert idx every results w. induction items as [|x rest IH];
    intros idx every results w Hp Hall.
  - exists [], w, []. rewrite !app_nil_r. repeat split; try reflexivity.
    destruct (obj w); simpl in *; subst; reflexivity.
  - destruct (Hall x (or_introl eq_refl)) as [r Hr].
    assert (Hrest : forall y, In y rest -> exists r, func y = Returns r)
      by (intros y Hy; apply Hall; right; exact Hy).
    rewrite (loop_returns _ _ _ _ _ _ _ r p Hr Hp).
    destruct (idx + 1 =? every) eqn:E.
    + apply Z.eqb_eq in E.
      destruct (IH (idx + 1) (every + every) (results ++ [r]) (after_write p (after_call x w)) Hp Hrest)
        as (rs & w' & t & Hrun & Hobj & Htr & Hcalls & Hwp).
      exists (r :: rs), w', (ECall x :: EWrite p (progress (obj w) ++ [_encode x]) :: t).
      rewrite Hrun, <- app_assoc. repeat split.
      * rewrite Hobj. simpl. rewrite <- app_assoc. reflexivity.
      * rewrite Htr. simpl. rewrite <- !app_assoc. reflexivity.
      * simpl. rewrite Hcalls. reflexivity.
      * intros Hb. simpl write_points. rewrite Hwp by lia.
        subst every.
        replace (idx + Z.of_nat (List.length (x :: rest)))
          with (idx + 1 + Z.of_nat (List.length rest)) by (simpl; lia).
        simpl List.length. cbn [doubling_schedule].
        replace (idx + 1 <=? idx + 1 + Z.of_nat (List.length rest)) with true
          by (symmetry; apply Z.leb_le; lia).
        reflexivity.
    + apply Z.eqb_neq in E.
      destruct (IH (idx + 1) every (results ++ [r]) (after_call x w) Hp Hrest)
        as (rs & w' & t & Hrun & Hobj & Htr & Hcalls & Hwp).
      exists (r :: rs), w', (ECall x :: t).
      rewrite Hrun, <- app_assoc. repeat split.
      * rewrite Hobj. simpl. rewrite <- app_assoc. reflexivity.
      * rewrite Htr. simpl. rewrite <- !app_assoc. reflexivity.
      * simpl. rewrite Hcalls. reflexivity.
      * intros Hb. simpl write_points. rewrite Hwp by lia.
        replace (idx + 1 + Z.of_nat (List.length rest))
          with (idx + Z.of_nat (List.length (x :: rest))) by (simpl; lia).
        apply doubling_schedule_fuel; simpl; lia.
Qed.

(** ** The loop when a callback raises *)

Lemma loop_raises_at func (items : list pyval) (k : nat) idx every results (w : world) p :
  ckpt_file (obj w) = Some p ->
  (k < List.length items)%nat ->
  (forall j, (j < k)%nat -> exists r, func (nth j items PNone) = Returns r) ->
  func (nth k items PNone) = Raises ->
  exists w',
    loop func items idx every results w = (Err CallbackError, w') /\
    progress (obj w') = progress (obj w) ++ map _encode (firstn k items) /\
    exists t, trace w' = trace w ++ t /\ calls t = firstn (S k) items.
Proof.
  revert items idx every results w. induction k as [|k IH];
    intros items idx every results w Hp Hk Hbefore Hfail;
    (destruct items as [|x rest]; [simpl in Hk; lia|]).
  - simpl in Hfail. rewrite loop_raises by exact Hfail.
    eexists. split; [reflexivity|]. simpl. rewrite app_nil_r. split; [reflexivity|].
    exists [ECall x]. split; reflexivity.
  - destruct (Hbefore 0%nat ltac:(lia)) as [r Hr]. simpl in Hr.
    assert (Hk' : (k < List.length rest)%nat) by (simpl in Hk; lia).
    assert (Hb' : forall j, (j < k)%nat -> exists r, func (nth j rest PNone) = Returns r)
      by (intros j Hj; apply (Hbefore (S j)); lia).
    rewrite (loop_returns _ _ _ _ _ _ _ r p Hr Hp).
    destruct (idx + 1 =? every).
    + destruct (IH rest (idx + 1) (every + every) (results ++ [r]) (after_write p (after_call x w))
                  Hp Hk' Hb' Hfail) as (w' & Hrun & Hprog & t & Htr & Hcalls).
      exists w'. split; [exact Hrun|]. split.
      * rewrite Hprog. simpl. rewrite <- app_assoc. reflexivity.
      * exists (ECall x :: EWrite p (progress (obj w) ++ [_encode x]) :: t). split.
        -- rewrite Htr. simpl. rewrite <- !app_assoc. reflexivity.
        -- simpl. rewrite Hcalls. reflexivity.
    + destruct (IH rest (idx + 1) every (results ++ [r]) (after_call x w)
                  Hp Hk' Hb' Hfail) as (w' & Hrun & Hprog & t & Htr & Hcalls).
      exists w'. split; [exact Hrun|]. split.
      * rewrite Hprog. simpl. rewrite <- app_assoc. reflexivity.
      * exists (ECall x :: t). split.
        -- rewrite Htr. simpl. rewrite <- !app_assoc. reflexivity.
        -- simpl. rewrite Hcalls. reflexivity.
Qed.
(** ** The resume planner, the run and the store *)
Lemma step_no_fnf (i : bytes) s m msg : step i s m <> Stop (Err (FileNotFoundError msg)).
Proof.
  destruct i as [|op rest]; [discriminate|].
  destruct op; cbn [step]; unfold counted, push, truncated, underflow;
    repeat match goal with
           | |- context [match ?x with _ => _ end] => destruct x
           end; discriminate.
Qed.

Lemma run_no_fnf (fuel : nat) (i : bytes) s m msg : run fuel i s m <> Err (FileNotFoundError msg).
Proof.
  revert i s m. induction fuel as [|f IH]; intros i s m; simpl; [discriminate|].
  destruct (step i s m) eqn:E; [apply IH|].
  intros ->. exact (step_no_fnf _ _ _ _ E).
Qed.

Ltac mcases H :=
  repeat (cbn beta iota zeta in H; cbn [add_event set_fs set_obj obj fs input_files now has_py7zr trace input_data ckpt_file progress] in H;
          match type of H with
          | context [match ?x with _ => _ end] =>
              lazymatch x with
              | ?f _ =>
                  lazymatch f with
                  | context [match _ with _ => _ end] => fail
                  | _ => let E := fresh "E" in destruct x eqn:E
                  end
              | context [match _ with _ => _ end] => fail
              | _ => let E := fresh "E" in destruct x eqn:E
              end
          end).

Lemma read_data_world (p : string) (w : world) : snd (read_data p w) = w.
Proof.
  unfold read_data, json_load, bind, get, ret, throw.
  repeat match goal with |- context [match ?x with _ => _ end] => destruct x end; reflexivity.
Qed.

Lemma read_data_no_missing (p : string) (w w' : world) :
  read_data p w <> (Err (FileNotFoundError ckpt_missing_msg), w').
Proof.
  unfold read_data, json_load, bind, get, ret, throw, ckpt_missing_msg.
  repeat match goal with |- context [match ?x with _ => _ end] => destruct x end;
    simpl; discriminate.
Qed.

Lemma check_progress_missing (w : world) (p : string) :
  ckpt_file (obj w) = Some p -> p <> EmptyString -> fs w p = None ->
  check_progress w = (Err (FileNotFoundError ckpt_missing_msg), w).
Proof.
  intros Hc Hp Hf. unfold check_progress, bind, get. rewrite Hc.
  destruct p; [congruence|]. rewrite Hf. reflexivity.
Qed.

Ltac unfold_m H :=
  unfold check_progress, ckpt_read, ckpt_write, touch, update_obj, emit, keyboard_interrupt_handler in H;
  unfold bind, get, ret, throw, lift, modify in H.

Lemma check_progress_missing_inv (w w' : world) :
  check_progress w = (Err (FileNotFoundError ckpt_missing_msg), w') ->
  exists p, ckpt_file (obj w) = Some p /\ p <> EmptyString /\ fs w p = None.
Proof.
  intros H. unfold_m H.
  destruct (ckpt_file (obj w)) as [[|c p]|] eqn:Hc; cbn beta iota zeta in H; rewrite ?Hc in H.
  all: mcases H; try discriminate.
  all: try (injection H as He _; subst).
  all: try (exfalso; eapply read_data_no_missing; eassumption).
  all: try (exfalso; eapply run_no_fnf; unfold pickle_loads in *; eassumption).
  all: try discriminate.
  all: try match goal with E : iter ?a = Err _ |- _ => destruct a; simpl in E; discriminate end.
  exists (String c p). split; [reflexivity | split; [discriminate | exact E]].
Qed.

Ltac read_data_world_in :=
  repeat match goal with
         | E : read_data ?p ?w = (_, ?w0) |- _ =>
             let Hw := fresh "Hw" in
             pose proof (read_data_world p w) as Hw; rewrite E in Hw; simpl in Hw; subst w0;
             clear E
         end.

Lemma check_progress_ckpt (w w1 : world) (data : list pyval) :
  check_progress w = (Ok data, w1) -> exists p, ckpt_file (obj w1) = Some p.
Proof.
  intros H. unfold_m H.
  destruct (ckpt_file (obj w)) as [[|c p]|] eqn:Hc; cbn beta iota zeta in H; rewrite ?Hc in H.
  all: mcases H; try discriminate.
  all: read_data_world_in.
  all: injection H as _ <-; cbn; eauto.
Qed.


Lemma filter_keep_all (A : Type) (f : A -> bool) (l : list A) :
  (forall x, In x l -> f x = true) -> filter f l = l.
Proof.
  induction l as [|x l IH]; intros Hf; simpl; [reflexivity|].
  rewrite (Hf x (or_introl eq_refl)), IH; [reflexivity|].
  intros y Hy. apply Hf. right. exact Hy.
Qed.

Ltac red_w := cbv beta iota zeta delta [add_event set_fs set_obj init];
  cbn [obj fs input_files now has_py7zr trace input_data ckpt_file progress].

Lemma check_progress_fresh (w : world) (data : list pyval) :
  obj w = init (InIter data) None ->
  check_progress w
  = (Ok data,
     add_event (ETouch (str_of_Z (now w) ++ ".ckpt"))
       (set_fs (fun q => if String.eqb q (str_of_Z (now w) ++ ".ckpt") then
                           match fs w q with Some c => Some c | None => Some [] end
                         else fs w q)
          (set_obj (mkCheckpoint (InIter data) (Some (str_of_Z (now w) ++ ".ckpt")) []) w)))%string.
Proof.
  intros Hw. unfold check_progress, touch, update_obj, emit.
  unfold bind, get, ret, modify.
  rewrite Hw. red_w. rewrite ?Hw. red_w.
  rewrite filter_keep_all; [reflexivity|]. intros x _. reflexivity.
Qed.

Lemma record_nonempty func F sp (w w1 : world) (data : list pyval) :
  check_progress w = (Ok data, w1) -> data <> [] ->
  record func F sp w =
  match loop func data 0 F [] (add_event ESigint w1) with
  | (Ok rs, w2) =>
      match ckpt_write w2 with
      | (Ok _, w3) => (Ok (Some rs), w3)
      | (Err e, w3) => (Err e, w3)
      end
  | (Err e, w2) => (Err e, w2)
  end.
Proof.
  intros H Hne. unfold record, bind at 1. rewrite H.
  destruct data as [|x rest]; [congruence|].
  unfold bind, emit, modify, ret. reflexivity.
Qed.

Lemma calls_app (t1 t2 : list event) : calls (t1 ++ t2) = calls t1 ++ calls t2.
Proof. induction t1 as [|[] t1 IH]; simpl; rewrite ?IH; reflexivity. Qed.

Lemma writes_app (t1 t2 : list event) : writes (t1 ++ t2) = writes t1 ++ writes t2.
Proof. induction t1 as [|[] t1 IH]; simpl; rewrite ?IH; reflexivity. Qed.

Lemma write_points_app (t1 t2 : list event) (k : Z) :
  write_points (t1 ++ t2) k
  = write_points t1 k ++ write_points t2 (k + Z.of_nat (List.length (calls t1))).
Proof.
  revert k. induction t1 as [|[] t1 IH]; intros k; simpl.
  - f_equal. lia.
  - rewrite IH. f_equal. f_equal. lia.
  - rewrite IH. reflexivity.
  - apply IH.
  - apply IH.
  - apply IH.
  - apply IH.
Qed.

Lemma record_ok func F sp (w w1 : world) (data : list pyval) :
  check_progress w = (Ok data, w1) -> data <> [] ->
  (forall x, In x data -> exists r, func x = Returns r) ->
  exists rs w' t,
    record func F sp w = (Ok (Some rs), w') /\
    trace w' = trace w1 ++ ESigint :: t /\
    calls t = data /\
    progress (obj w') = progress (obj w1) ++ map _encode data /\
    (1 <= F -> write_points t 0
               = flush_schedule F (Z.of_nat (List.length data)) ++ [Z.of_nat (List.length data)]).
Proof.
  intros H Hne Hall.
  destruct (check_progress_ckpt _ _ _ H) as [p Hp].
  rewrite (record_nonempty _ _ _ _ _ _ H Hne).
  destruct (loop_ok func data 0 F [] (add_event ESigint w1) p Hp Hall)
    as (rs & w2 & t & Hrun & Hobj & Htr & Hcalls & Hwp).
  rewrite Hrun.
  assert (Hp2 : ckpt_file (obj w2) = Some p) by (rewrite Hobj; reflexivity).
  rewrite (ckpt_write_at _ p Hp2).
  exists rs, (after_write p w2), (t ++ [EWrite p (progress (obj w2))]).
  split; [reflexivity|]. split; [|split; [|split]].
  - unfold after_write. cbn [add_event trace set_fs]. rewrite Htr. cbn [add_event trace].
    rewrite <- !app_assoc. reflexivity.
  - rewrite calls_app, Hcalls. simpl. apply app_nil_r.
  - unfold after_write. cbn [add_event set_fs obj]. rewrite Hobj. reflexivity.
  - intros HF. rewrite write_points_app, Hwp by lia. rewrite Hcalls. cbn.
    unfold flush_schedule. f_equal.
    apply doubling_schedule_fuel; [lia| |]; rewrite ?Nat2Z.id; lia.
Qed.

Lemma record_raises func F sp (w w1 : world) (data : list pyval) (k : nat) :
  check_progress w = (Ok data, w1) ->
  (k < List.length data)%nat ->
  (forall j, (j < k)%nat -> exists r, func (nth j data PNone) = Returns r) ->
  func (nth k data PNone) = Raises ->
  exists w',
    record func F sp w = (Err CallbackError, w') /\
    progress (obj w') = progress (obj w1) ++ map _encode (firstn k data) /\
    exists t, trace w' = trace w1 ++ ESigint :: t /\ calls t = firstn (S k) data.
Proof.
  intros H Hk Hbefore Hfail.
  destruct (check_progress_ckpt _ _ _ H) as [p Hp].
  assert (Hne : data <> []) by (intros ->; simpl in Hk; lia).
  rewrite (record_nonempty _ _ _ _ _ _ H Hne).
  destruct (loop_raises_at func data k 0 F [] (add_event ESigint w1) p Hp Hk Hbefore Hfail)
    as (w' & Hrun & Hprog & t & Htr & Hcalls).
  rewrite Hrun. exists w'. split; [reflexivity|]. split; [exact Hprog|].
  exists t. split; [|exact Hcalls].
  rewrite Htr. cbn [add_event trace]. rewrite <- app_assoc. reflexivity.
Qed.

Lemma check_progress_resume (w : world) (p : string) (S : list bytes) (data : list pyval) :
  ckpt_file (obj w) = Some p -> p <> EmptyString ->
  fs w p = Some (pickle_dumps (PList (map PBytes S))) ->
  len (pickle_dumps (PList (map PBytes S))) <= PY_SSIZE_T_MAX ->
  input_data (obj w) = InIter data ->
  exists w1,
    check_progress w
    = (Ok (filter (fun x => negb (mem (_encode x)
                                   (progress (obj w) ++ map (fun m => _encode (PBytes m)) S)))
                  data), w1) /\
    trace w1 = trace w ++ [ESkipped (Z.of_nat (List.length S))].
Proof.
  intros Hc Hp Hf Hsz Hin.
  unfold check_progress, ckpt_read, update_obj, emit.
  unfold bind, get, ret, lift, modify.
  red_w. rewrite Hc. destruct p as [|c p]; [congruence|]. red_w. rewrite ?Hc, Hf. red_w.
  rewrite ?Hc, ?Hf. red_w. rewrite (loads_dumps_bytes_list S Hsz). cbn [iter].
  red_w. rewrite Hin. red_w.
  rewrite map_map, length_map. eexists. split; reflexivity.
Qed.

Lemma prefix_refl (a : list bytes) : prefix a a.
Proof. exists []. symmetry. apply app_nil_r. Qed.

Lemma prefix_trans (a b c : list bytes) : prefix a b -> prefix b c -> prefix a c.
Proof. intros [s ->] [s' ->]. exists (s ++ s'). rewrite app_assoc. reflexivity. Qed.

Lemma prefix_chain_app (l1 l2 : list (list bytes)) :
  prefix_chain l1 -> prefix_chain l2 ->
  (forall a b, In a l1 -> In b l2 -> prefix a b) -> prefix_chain (l1 ++ l2).
Proof.
  induction l1 as [|a l1 IH]; intros H1 H2 Hx; simpl; [exact H2|].
  destruct H1 as [Ha H1]. split.
  - apply Forall_app. split; [exact Ha|].
    apply Forall_forall. intros b Hb. apply Hx; [left; reflexivity | exact Hb].
  - apply IH; [exact H1 | exact H2|]. intros a' b Ha' Hb. apply Hx; [right; exact Ha' | exact Hb].
Qed.

Lemma Inv_refl (w : world) : Inv w w.
Proof.
  exists []. rewrite app_nil_r. repeat split; [apply prefix_refl | constructor].
Qed.

Lemma Inv_trans (w1 w2 w3 : world) : Inv w1 w2 -> Inv w2 w3 -> Inv w1 w3.
Proof.
  intros (t1 & Ht1 & Hp1 & Hc1 & Hf1) (t2 & Ht2 & Hp2 & Hc2 & Hf2).
  exists (t1 ++ t2). rewrite Ht2, Ht1, app_assoc. split; [reflexivity|].
  split; [eapply prefix_trans; eassumption|].
  rewrite writes_app. rewrite Forall_forall in Hf1, Hf2. split.
  - apply prefix_chain_app; [exact Hc1 | exact Hc2|].
    intros a b Ha Hb. apply prefix_trans with (progress (obj w2)).
    + apply (Hf1 a Ha).
    + apply (Hf2 b Hb).
  - apply Forall_app. split; apply Forall_forall.
    + intros s Hs. destruct (Hf1 s Hs) as [Ha Hb].
      split; [exact Ha | eapply prefix_trans; eassumption].
    + intros s Hs. destruct (Hf2 s Hs) as [Ha Hb].
      split; [eapply prefix_trans; eassumption | exact Hb].
Qed.

Lemma Inv_quiet (w w' : world) : obj w' = obj w -> trace w' = trace w -> Inv w w'.
Proof.
  intros Ho Ht. exists []. rewrite Ho, Ht, app_nil_r.
  repeat split; [apply prefix_refl | constructor].
Qed.

Lemma mono_quiet {A} (c : M A) :
  (forall w, obj (snd (c w)) = obj w /\ trace (snd (c w)) = trace w) -> mono c.
Proof. intros H w. apply Inv_quiet; apply H. Qed.

Lemma mono_same {A} (c : M A) : (forall w, snd (c w) = w) -> mono c.
Proof. intros H w. rewrite H. apply Inv_refl. Qed.

Lemma mono_ret {A} (a : A) : mono (ret a).
Proof. apply mono_same. reflexivity. Qed.

Lemma mono_throw {A} (e : exc) : mono (@throw A e).
Proof. apply mono_same. reflexivity. Qed.

Lemma mono_get : mono get.
Proof. apply mono_same. reflexivity. Qed.

Lemma mono_lift {A} (r : res A) : mono (lift r).
Proof. apply mono_same. reflexivity. Qed.

Lemma mono_bind {A B} (c : M A) (k : A -> M B) :
  mono c -> (forall a, mono (k a)) -> mono (bind c k).
Proof.
  intros Hc Hk w. unfold bind.
  specialize (Hc w). destruct (c w) as [[a|e] w1] eqn:E; simpl in Hc.
  - eapply Inv_trans; [exact Hc | apply Hk].
  - exact Hc.
Qed.

Lemma mono_emit (e : event) : (forall p s, e <> EWrite p s) -> mono (emit e).
Proof.
  intros He w. exists [e]. simpl. split; [reflexivity|]. split; [apply prefix_refl|].
  destruct e; try (exfalso; eapply He; reflexivity); repeat constructor.
Qed.

Lemma mono_update_obj (f : Checkpoint -> Checkpoint) :
  (forall o, prefix (progress o) (progress (f o))) -> mono (update_obj f).
Proof.
  intros Hf w. exists []. simpl. rewrite app_nil_r. split; [reflexivity|].
  split; [apply Hf | repeat constructor].
Qed.

Lemma mono_ckpt_write : mono ckpt_write.
Proof.
  intros w. unfold ckpt_write, bind, get, emit, modify, throw.
  destruct (ckpt_file (obj w)) as [p|]; simpl; [|apply Inv_refl].
  exists [EWrite p (progress (obj w))]. simpl. split; [reflexivity|].
  split; [apply prefix_refl|]. split; [split; constructor|].
  repeat constructor; apply prefix_refl.
Qed.

Lemma mono_ckpt_read : mono ckpt_read.
Proof.
  apply mono_same. intros w. unfold ckpt_read, bind, get, lift, throw.
  destruct (ckpt_file (obj w)) as [p|]; [destruct (fs w p)|]; reflexivity.
Qed.

Lemma mono_read_data (p : string) : mono (read_data p).
Proof. apply mono_same. apply read_data_world. Qed.

Lemma mono_touch (p : string) : mono (touch p).
Proof.
  unfold touch. apply mono_bind; [|intros _; apply mono_emit; discriminate].
  apply mono_quiet. split; reflexivity.
Qed.

Lemma mono_check_progress : mono check_progress.
Proof.
  unfold check_progress.
  apply mono_bind; [apply mono_get|]. intros w.
  apply mono_bind.
  - destruct (ckpt_file (obj w)) as [[|c p]|].
    + apply mono_bind; [|intros _; apply mono_touch].
      apply mono_update_obj. intros o. apply prefix_refl.
    + destruct (fs w (String c p)); [|apply mono_throw].
      apply mono_bind; [apply mono_ckpt_read|]. intros d.
      apply mono_bind; [apply mono_lift|]. intros xs.
      apply mono_bind; [|intros _; apply mono_emit; discriminate].
      apply mono_update_obj. intros o. exists (map _encode xs). reflexivity.
    + apply mono_bind; [|intros _; apply mono_touch].
      apply mono_update_obj. intros o. apply prefix_refl.
  - intros _. apply mono_bind; [apply mono_get|]. intros w1.
    apply mono_bind.
    + destruct (input_data (obj w1)); [apply mono_throw | apply mono_read_data | apply mono_ret].
    + intros data. apply mono_bind; [apply mono_get | intros w2; apply mono_ret].
Qed.

Lemma mono_loop func (items : list pyval) idx every results :
  mono (loop func items idx every results).
Proof.
  revert idx every results. induction items as [|x rest IH]; intros idx every results; simpl.
  - apply mono_ret.
  - apply mono_bind; [apply mono_emit; discriminate|]. intros _.
    destruct (func x) as [r| |].
    + apply mono_bind.
      * apply mono_update_obj. intros o. exists [_encode x]. reflexivity.
      * intros _. destruct (idx + 1 =? every); [|apply IH].
        apply mono_bind; [apply mono_ckpt_write | intros _; apply IH].
    + apply mono_throw.
    + unfold keyboard_interrupt_handler.
      apply mono_bind; [apply mono_ckpt_write | intros _; apply mono_throw].
Qed.

Lemma mono_record func F sp : mono (record func F sp).
Proof.
  unfold record. apply mono_bind; [apply mono_check_progress|]. intros data.
  destruct data as [|x rest].
  - apply mono_bind; [apply mono_emit; discriminate | intros _; apply mono_ret].
  - apply mono_bind; [apply mono_emit; discriminate|]. intros _.
    apply mono_bind; [apply mono_loop|]. intros results.
    apply mono_bind; [apply mono_ckpt_write | intros _; apply mono_ret].
Qed.

Lemma prefix_chain_nth (l : list (list bytes)) :
  prefix_chain l ->
  forall i j a b, (i < j)%nat -> nth_error l i = Some a -> nth_error l j = Some b ->
  exists s, b = a ++ s.
Proof.
  induction l as [|c l IH]; intros Hc i j a b Hij Ha Hb; [destruct i; discriminate|].
  destruct Hc as [Hall Hc]. destruct j as [|j]; [lia|].
  destruct i as [|i]; simpl in Ha, Hb.
  - injection Ha as <-. rewrite Forall_forall in Hall. apply Hall.
    eapply nth_error_In. exact Hb.
  - eapply IH; [exact Hc | | exact Ha | exact Hb]. lia.
Qed.

Lemma bytes_eqb_eq (a b : bytes) : bytes_eqb a b = true -> a = b.
Proof.
  revert b. induction a as [|x a IH]; intros [|y b] H; simpl in H; try discriminate; [reflexivity|].
  apply andb_true_iff in H as [Hx H]. apply Byte.byte_dec_bl in Hx. subst y. f_equal. apply IH. exact H.
Qed.

Example encode_one : _encode (PInt 1) = [x67; x41; x52; x4c; x41; x53; x34; x3d].
Proof. reflexivity. Qed.
Example loads_bytes :
  pickle_loads (pickle_dumps (PList [PBytes [x61; x62]; PInt (-70000); PInt 300; PNone]))
  = Ok (PList [PBytes [x61; x62]; PInt (-70000); PInt 300; PNone]).
Proof. vm_compute. reflexivity. Qed.
Example loads_big : pickle_loads (pickle_dumps (PInt (2 ^ 70))) = Ok (PInt (2 ^ 70)).
Proof. vm_compute. reflexivity. Qed.

(** * Claims *)

(** C1 (resume correctness).  When the checkpoint file holds the markers [S]
    and the input is an in-memory collection, [check_progress] reports
    [len S] skipped entries but excludes the items whose marker is among the
    markers of the loaded entries, [_encode (PBytes m)] for [m] in [S], not
    among [S] itself: every loaded entry is encoded a second time. *)
Theorem check_progress_reencodes_markers (w : world) (p : string) (S : list bytes)
    (data : list pyval) :
  ckpt_file (obj w) = Some p -> p <> EmptyString ->
  fs w p = Some (pickle_dumps (PList (map PBytes S))) ->
  len (pickle_dumps (PList (map PBytes S))) <= PY_SSIZE_T_MAX ->
  input_data (obj w) = InIter data ->
  exists w1,
    check_progress w
    = (Ok (filter (fun x => negb (mem (_encode x)
                                   (progress (obj w) ++ map (fun m => _encode (PBytes m)) S)))
                  data), w1) /\
    trace w1 = trace w ++ [ESkipped (Z.of_nat (List.length S))].
Proof. apply check_progress_resume. Qed.

(** Input [[1; 2]], checkpoint holding the marker of [1]: the work set is
    still [[1; 2]], while one entry is reported as skipped. *)
Lemma check_progress_reencodes_markers_witness :
  exists w1, check_progress (resume_world [PInt 1; PInt 2] [PInt 1]) = (Ok [PInt 1; PInt 2], w1)
             /\ trace w1 = [ESkipped 1].
Proof.
  destruct (check_progress_reencodes_markers (resume_world [PInt 1; PInt 2] [PInt 1]) "run.ckpt"%string
              [_encode (PInt 1)] [PInt 1; PInt 2])
    as [w1 [H1 H2]]; [reflexivity | discriminate | reflexivity | vm_compute; discriminate
                      | reflexivity | ].
  exists w1. split; [rewrite H1; vm_compute; reflexivity | rewrite H2; reflexivity].
Defined.

(** C2 (no-op on full completion).  Input [[1]] and a checkpoint holding
    the marker of [1]: [record] still calls the callback on [1], returns
    [[10]] and writes the checkpoint. *)
Theorem record_reruns_completed_items :
  match record times10 100 true (resume_world [PInt 1] [PInt 1]) with
  | (Ok r, w') => r = Some [PInt 10] /\ calls (trace w') = [PInt 1] /\
                  List.length (writes (trace w')) = 1%nat
  | (Err _, _) => False
  end.
Proof. vm_compute. repeat split. Qed.

(** C3 (callback failure).  If the callback returns on the first [k] items of
    the work set and raises on item [k], [record] raises; the progress list
    then holds the loaded markers followed by the markers of exactly those
    first [k] items, and the callback was called on the first [k+1] items. *)
Theorem record_callback_error_propagates func F sp (w w1 : world) (data : list pyval) (k : nat) :
  check_progress w = (Ok data, w1) ->
  (k < List.length data)%nat ->
  (forall j, (j < k)%nat -> exists r, func (nth j data PNone) = Returns r) ->
  func (nth k data PNone) = Raises ->
  exists w',
    record func F sp w = (Err CallbackError, w') /\
    progress (obj w') = progress (obj w1) ++ map _encode (firstn k data) /\
    exists t, trace w' = trace w1 ++ ESigint :: t /\ calls t = firstn (S k) data.
Proof. apply record_raises. Qed.

Lemma record_callback_error_propagates_witness :
  exists w',
    record times10 100 true (fresh_world [PInt 1; PBool true; PInt 3]) = (Err CallbackError, w') /\
    progress (obj w') = [_encode (PInt 1)] /\
    exists t, trace w' = trace (snd (check_progress (fresh_world [PInt 1; PBool true; PInt 3])))
                         ++ ESigint :: t /\ calls t = [PInt 1; PBool true].
Proof.
  destruct (record_callback_error_propagates times10 100 true (fresh_world [PInt 1; PBool true; PInt 3])
              (snd (check_progress (fresh_world [PInt 1; PBool true; PInt 3])))
              [PInt 1; PBool true; PInt 3] 1)
    as (w' & H1 & H2 & H3).
  - vm_compute. reflexivity.
  - simpl. lia.
  - intros j Hj. destruct j as [|j]; [eexists; reflexivity | lia].
  - reflexivity.
  - exists w'. split; [exact H1|]. split; [rewrite H2; vm_compute; reflexivity | exact H3].
Defined.

(** C4 (example scenario).  Input [[1;2;3;4;5]], no checkpoint path,
    [checkpoint_every = 2], callback [item*10]: the results are
    [[10;20;30;40;50]], the checkpoint is written after 2, 4 and 5 completed
    items, and reading it back gives the markers of the five items. *)
Theorem record_flush_example :
  match record times10 2 true (fresh_world (map PInt [1; 2; 3; 4; 5])) with
  | (Ok r, w') =>
      r = Some (map PInt [10; 20; 30; 40; 50]) /\
      write_points (trace w') 0 = [2; 4; 5] /\
      fst (ckpt_io "read"%string w') = Ok (Some (PList (map PBytes (map _encode (map PInt [1; 2; 3; 4; 5])))))
  | (Err _, _) => False
  end.
Proof. vm_compute. repeat split. Qed.

(** Six items with [checkpoint_every = 2]: the periodic writes come after
    2 and 4 completed items (the second one 2 items after the first), and
    the final write after 6. *)
Lemma record_flush_six_items :
  match record times10 2 true (fresh_world (map PInt [1; 2; 3; 4; 5; 6])) with
  | (Ok _, w') => write_points (trace w') 0 = [2; 4; 6]
  | (Err _, _) => False
  end.
Proof. vm_compute. reflexivity. Qed.

(** C5 (flush cadence).  A run of [n] items with [checkpoint_every = F >= 1]
    in which every callback returns writes the checkpoint after [F], [2F],
    [4F], ... completed items, counted from the start of the run (those at
    most [n]), and then once more after the last item. *)
Theorem record_flush_cadence func F sp (w w1 : world) (data : list pyval) :
  check_progress w = (Ok data, w1) -> data <> [] -> 1 <= F ->
  (forall x, In x data -> exists r, func x = Returns r) ->
  exists rs w' t,
    record func F sp w = (Ok (Some rs), w') /\
    trace w' = trace w1 ++ ESigint :: t /\
    write_points t 0
    = flush_schedule F (Z.of_nat (List.length data)) ++ [Z.of_nat (List.length data)].
Proof.
  intros H Hne HF Hall.
  destruct (record_ok func F sp w w1 data H Hne Hall)
    as (rs & w' & t & Hrec & Htr & _ & _ & Hwp).
  exists rs, w', t. split; [exact Hrec|]. split; [exact Htr|]. apply Hwp. exact HF.
Qed.

Lemma record_flush_cadence_witness :
  exists rs w' t,
    record times10 2 true (fresh_world (map PInt [1; 2; 3; 4; 5; 6])) = (Ok (Some rs), w') /\
    trace w' = trace (snd (check_progress (fresh_world (map PInt [1; 2; 3; 4; 5; 6]))))
               ++ ESigint :: t /\
    write_points t 0 = [2; 4; 6].
Proof.
  destruct (record_flush_cadence times10 2 true (fresh_world (map PInt [1; 2; 3; 4; 5; 6]))
              (snd (check_progress (fresh_world (map PInt [1; 2; 3; 4; 5; 6]))))
              (map PInt [1; 2; 3; 4; 5; 6]))
    as (rs & w' & t & H1 & H2 & H3).
  - vm_compute. reflexivity.
  - discriminate.
  - lia.
  - intros x Hx. simpl in Hx.
    repeat (destruct Hx as [<-|Hx]; [eexists; reflexivity|]). destruct Hx.
  - exists rs, w', t. split; [exact H1|]. split; [exact H2|]. rewrite H3. vm_compute. reflexivity.
Defined.

(** [1 == True] in Python, but the markers of [1] and [True] differ. *)
Lemma encode_bool_int :
  py_eq (PInt 1) (PBool true) = true /\ _encode (PInt 1) <> _encode (PBool true).
Proof. split; [reflexivity | vm_compute; discriminate]. Qed.

(** C6 (what decides a marker).  The marker is the base64 of the pickle:
    two items have the same marker exactly when their pickles are the same
    bytes.  [==] does not decide it ([encode_bool_int]: [1 == True], yet
    the markers differ). *)
Theorem encode_eq_iff_pickle_eq (a b : pyval) :
  _encode a = _encode b <-> pickle_dumps a = pickle_dumps b.
Proof.
  unfold _encode. split; intros H.
  - apply (f_equal b64decode) in H. rewrite !b64decode_encode in H. exact H.
  - rewrite H. reflexivity.
Qed.

(** C7 (checkpoint round trip).  Writing the progress list [L] with
    [ckpt_io('write')] and reading the same path with [ckpt_io('read')] gives
    back [L] (as a list of bytes objects), for every [L], the empty one
    included, whose pickle fits the unpickler's size limit. *)
Theorem ckpt_io_roundtrip (w : world) (p : string) :
  ckpt_file (obj w) = Some p ->
  len (pickle_dumps (PList (map PBytes (progress (obj w))))) <= PY_SSIZE_T_MAX ->
  exists w',
    ckpt_io "write" w = (Ok None, w') /\
    ckpt_io "read" w' = (Ok (Some (PList (map PBytes (progress (obj w))))), w').
Proof.
  intros Hp Hsz.
  change (ckpt_io "write") with (ckpt_write;; ret (@None pyval)).
  change (ckpt_io "read") with (v <- ckpt_read;; ret (Some v)).
  unfold bind at 1. rewrite (ckpt_write_at w p Hp).
  exists (after_write p w). split; [reflexivity|].
  unfold ckpt_read, after_write, fs_write. unfold bind, get, lift, ret. red_w.
  rewrite Hp, String.eqb_refl, (loads_dumps_bytes_list _ Hsz). reflexivity.
Qed.

Lemma ckpt_io_roundtrip_witness :
  exists w',
    ckpt_io "write" (store_world [_encode (PInt 1); _encode (PInt 2)]) = (Ok None, w') /\
    ckpt_io "read" w' = (Ok (Some (PList (map PBytes [_encode (PInt 1); _encode (PInt 2)]))), w').
Proof.
  apply (ckpt_io_roundtrip (store_world [_encode (PInt 1); _encode (PInt 2)]) "a.ckpt"%string);
    [reflexivity | vm_compute; discriminate].
Defined.

(** C8 (missing checkpoint).  [check_progress] raises [FileNotFoundError]
    with the message "The path to the checkpoint file does not exist!"
    exactly when the checkpoint path is set (a non-empty string) and no file
    exists there; [record] then raises it before any callback call or
    write, with the world unchanged. *)
Theorem check_progress_missing_checkpoint func F sp (w : world) :
  ((exists w', check_progress w = (Err (FileNotFoundError ckpt_missing_msg), w')) <->
   (exists p, ckpt_file (obj w) = Some p /\ p <> EmptyString /\ fs w p = None)) /\
  (forall p, ckpt_file (obj w) = Some p -> p <> EmptyString -> fs w p = None ->
   record func F sp w = (Err (FileNotFoundError ckpt_missing_msg), w)).
Proof.
  split; [split|].
  - intros [w' H]. exact (check_progress_missing_inv w w' H).
  - intros (p & Hc & Hp & Hf). exists w. exact (check_progress_missing w p Hc Hp Hf).
  - intros p Hc Hp Hf. unfold record, bind at 1.
    rewrite (check_progress_missing w p Hc Hp Hf). reflexivity.
Qed.

Lemma check_progress_missing_checkpoint_witness :
  record times10 100 true (mkWorld (init (InIter [PInt 1]) (Some "gone.ckpt"%string))
                                   (fun _ => None) no_files 0 false [])
  = (Err (FileNotFoundError ckpt_missing_msg),
     mkWorld (init (InIter [PInt 1]) (Some "gone.ckpt"%string)) (fun _ => None) no_files 0 false []).
Proof.
  apply (proj2 (check_progress_missing_checkpoint times10 100 true
                  (mkWorld (init (InIter [PInt 1]) (Some "gone.ckpt"%string))
                           (fun _ => None) no_files 0 false []))
                "gone.ckpt"%string); [reflexivity | discriminate | reflexivity].
Defined.

(** C9 (duplicates).  A fresh object on an in-memory collection, without a
    checkpoint path: the work set is the whole collection, and [record]
    calls the callback once per occurrence, duplicates included. *)
Theorem record_processes_duplicates func F sp (w : world) (data : list pyval) :
  obj w = init (InIter data) None -> data <> [] ->
  (forall x, In x data -> exists r, func x = Returns r) ->
  fst (check_progress w) = Ok data /\
  exists rs w' t,
    record func F sp w = (Ok (Some rs), w') /\
    trace w' = trace w ++ ETouch (str_of_Z (now w) ++ ".ckpt")%string :: ESigint :: t /\
    calls t = data.
Proof.
  intros Hw Hne Hall. rewrite (check_progress_fresh w data Hw). split; [reflexivity|].
  destruct (record_ok func F sp w _ data (check_progress_fresh w data Hw) Hne Hall)
    as (rs & w' & t & Hrec & Htr & Hcalls & _ & _).
  exists rs, w', t. split; [exact Hrec|]. split; [|exact Hcalls].
  rewrite Htr. cbn [add_event set_fs set_obj trace]. rewrite <- app_assoc. reflexivity.
Qed.

Lemma record_processes_duplicates_witness :
  fst (check_progress (fresh_world [PInt 7; PInt 7])) = Ok [PInt 7; PInt 7] /\
  exists rs w' t,
    record times10 100 true (fresh_world [PInt 7; PInt 7]) = (Ok (Some rs), w') /\
    trace w' = [ETouch "1700000000.ckpt"%string; ESigint] ++ t /\
    calls t = [PInt 7; PInt 7].
Proof.
  destruct (record_processes_duplicates times10 100 true (fresh_world [PInt 7; PInt 7])
              [PInt 7; PInt 7]) as [H0 (rs & w' & t & H1 & H2 & H3)].
  - reflexivity.
  - discriminate.
  - intros x Hx. simpl in Hx.
    destruct Hx as [<-|[<-|[]]]; eexists; reflexivity.
  - split; [exact H0|]. exists rs, w', t. split; [exact H1|]. split; [|exact H3].
    rewrite H2. vm_compute. reflexivity.
Defined.

(** C10 (monotone snapshots).  Whatever [record] ends with (results, a
    callback error, an interrupt), each list it writes to the checkpoint is
    a prefix of every list it writes later. *)
Theorem record_snapshots_monotone func F sp (w : world) :
  exists t,
    trace (snd (record func F sp w)) = trace w ++ t /\
    forall i j a b, (i < j)%nat ->
      nth_error (writes t) i = Some a -> nth_error (writes t) j = Some b ->
      exists s, b = a ++ s.
Proof.
  destruct (mono_record func F sp w) as (t & Htr & _ & Hchain & _).
  exists t. split; [exact Htr|]. apply prefix_chain_nth. exact Hchain.
Qed.

(** * Further properties of the code *)

(** ** Helpers: the loop, the planner and the store *)
Lemma loop_results func (g : pyval -> pyval) (items : list pyval) idx every results (w : world) p :
  ckpt_file (obj w) = Some p ->
  (forall x, In x items -> func x = Returns (g x)) ->
  fst (loop func items idx every results w) = Ok (results ++ map g items).
Proof.
  revert idx every results w. induction items as [|x rest IH]; intros idx every results w Hp Hall.
  - simpl. rewrite app_nil_r. reflexivity.
  - rewrite (loop_returns _ _ _ _ _ _ _ (g x) p (Hall x (or_introl eq_refl)) Hp).
    assert (Hr : forall y, In y rest -> func y = Returns (g y)) by (intros; apply Hall; right; auto).
    destruct (idx + 1 =? every); rewrite IH; try exact Hp; try exact Hr;
      rewrite <- app_assoc; reflexivity.
Qed.

Lemma loop_interrupts func x rest idx every results (w : world) p :
  func x = Interrupted -> ckpt_file (obj w) = Some p ->
  loop func (x :: rest) idx every results w
  = (Err (SystemExit 1), after_write p (add_event (ECall x) w)).
Proof.
  intros Hf Hp. cbn [loop]. unfold bind at 1, emit, modify. rewrite Hf.
  unfold keyboard_interrupt_handler, bind. rewrite (ckpt_write_at _ p) by exact Hp.
  reflexivity.
Qed.

Lemma after_write_file (p : string) (w : world) :
  fs (after_write p w) p = Some (pickle_dumps (PList (map PBytes (progress (obj (after_write p w)))))).
Proof. unfold after_write, fs_write. cbn [add_event set_fs obj fs]. rewrite String.eqb_refl. reflexivity. Qed.

Lemma loop_interrupted_at func (items : list pyval) (k : nat) idx every results (w : world) p :
  ckpt_file (obj w) = Some p ->
  (k < List.length items)%nat ->
  (forall j, (j < k)%nat -> exists r, func (nth j items PNone) = Returns r) ->
  func (nth k items PNone) = Interrupted ->
  exists w',
    loop func items idx every results w = (Err (SystemExit 1), w') /\
    progress (obj w') = progress (obj w) ++ map _encode (firstn k items) /\
    fs w' p = Some (pickle_dumps (PList (map PBytes (progress (obj w'))))) /\
    exists t, trace w' = trace w ++ t /\ calls t = firstn (S k) items.
Proof.
  revert items idx every results w. induction k as [|k IH];
    intros items idx every results w Hp Hk Hbefore Hfail;
    (destruct items as [|x rest]; [simpl in Hk; lia|]).
  - simpl in Hfail. rewrite (loop_interrupts _ _ _ _ _ _ _ p Hfail Hp).
    eexists. split; [reflexivity|]. split; [simpl; rewrite app_nil_r; reflexivity|].
    split; [apply after_write_file|].
    exists [ECall x; EWrite p (progress (obj w))]. split; [|reflexivity].
    unfold after_write. cbn [add_event set_fs trace obj]. rewrite <- app_assoc. reflexivity.
  - destruct (Hbefore 0%nat ltac:(lia)) as [r Hr]. simpl in Hr.
    assert (Hk' : (k < List.length rest)%nat) by (simpl in Hk; lia).
    assert (Hb' : forall j, (j < k)%nat -> exists r, func (nth j rest PNone) = Returns r)
      by (intros j Hj; apply (Hbefore (S j)); lia).
    rewrite (loop_returns _ _ _ _ _ _ _ r p Hr Hp).
    destruct (idx + 1 =? every).
    + destruct (IH rest (idx + 1) (every + every) (results ++ [r]) (after_write p (after_call x w))
                  Hp Hk' Hb' Hfail) as (w' & Hrun & Hprog & Hfile & t & Htr & Hcalls).
      exists w'. split; [exact Hrun|]. split; [|split; [exact Hfile|]].
      * rewrite Hprog. simpl. rewrite <- app_assoc. reflexivity.
      * exists (ECall x :: EWrite p (progress (obj w) ++ [_encode x]) :: t). split.
        -- rewrite Htr. simpl. rewrite <- !app_assoc. reflexivity.
        -- simpl. rewrite Hcalls. reflexivity.
    + destruct (IH rest (idx + 1) every (results ++ [r]) (after_call x w)
                  Hp Hk' Hb' Hfail) as (w' & Hrun & Hprog & Hfile & t & Htr & Hcalls).
      exists w'. split; [exact Hrun|]. split; [|split; [exact Hfile|]].
      * rewrite Hprog. simpl. rewrite <- app_assoc. reflexivity.
      * exists (ECall x :: t). split.
        -- rewrite Htr. simpl. rewrite <- !app_assoc. reflexivity.
        -- simpl. rewrite Hcalls. reflexivity.
Qed.

Lemma write_points_quiet (t : list event) (k : Z) : writes t = [] -> write_points t k = [].
Proof.
  revert k. induction t as [|[] t IH]; intros k H; simpl in *; try discriminate; auto.
Qed.

Lemma loop_no_flush func (items : list pyval) idx every results (w : world) p :
  ckpt_file (obj w) = Some p -> every <= idx ->
  (forall x, In x items -> exists r, func x = Returns r) ->
  exists rs w' t,
    loop func items idx every results w = (Ok (results ++ rs), w') /\
    obj w' = mkCheckpoint (input_data (obj w)) (Some p) (progress (obj w) ++ map _encode items) /\
    trace w' = trace w ++ t /\ calls t = items /\ writes t = [].
Proof.
  revert idx results w. induction items as [|x rest IH]; intros idx results w Hp Hle Hall.
  - exists [], w, []. rewrite !app_nil_r. repeat split; try reflexivity.
    destruct (obj w); simpl in *; subst; reflexivity.
  - destruct (Hall x (or_introl eq_refl)) as [r Hr].
    assert (Hrest : forall y, In y rest -> exists r, func y = Returns r)
      by (intros y Hy; apply Hall; right; exact Hy).
    rewrite (loop_returns _ _ _ _ _ _ _ r p Hr Hp).
    replace (idx + 1 =? every) with false by (symmetry; apply Z.eqb_neq; lia).
    destruct (IH (idx + 1) (results ++ [r]) (after_call x w) Hp ltac:(lia) Hrest)
      as (rs & w' & t & Hrun & Hobj & Htr & Hcalls & Hwr).
    exists (r :: rs), w', (ECall x :: t).
    rewrite Hrun, <- app_assoc. repeat split.
    + rewrite Hobj. simpl. rewrite <- app_assoc. reflexivity.
    + rewrite Htr. simpl. rewrite <- !app_assoc. reflexivity.
    + simpl. rewrite Hcalls. reflexivity.
    + simpl. exact Hwr.
Qed.

Lemma auto_ckpt_name_nonempty (z : Z) : (str_of_Z z ++ ".ckpt")%string <> EmptyString.
Proof. destruct (str_of_Z z); discriminate. Qed.

Lemma bytes_eqb_refl (a : bytes) : bytes_eqb a a = true.
Proof. induction a as [|x a IH]; simpl; [reflexivity|]. rewrite (Byte.byte_dec_lb eq_refl). exact IH. Qed.

Lemma mem_in (m : bytes) (l : list bytes) : In m l -> mem m l = true.
Proof.
  intros H. unfold mem. apply existsb_exists. exists m. split; [exact H | apply bytes_eqb_refl].
Qed.

Lemma filter_drop_all (A : Type) (f : A -> bool) (l : list A) :
  (forall x, In x l -> f x = false) -> filter f l = [].
Proof.
  induction l as [|x l IH]; intros Hf; simpl; [reflexivity|].
  rewrite (Hf x (or_introl eq_refl)). apply IH. intros y Hy. apply Hf. right. exact Hy.
Qed.

Lemma check_progress_keeps_files (w w' : world) (p : string) r :
  ckpt_file (obj w) = Some p -> p <> EmptyString ->
  check_progress w = (r, w') -> fs w' = fs w.
Proof.
  intros Hc Hp H. unfold_m H. rewrite Hc in H. destruct p as [|c p]; [congruence|].
  mcases H; try discriminate.
  all: read_data_world_in.
  all: injection H as _ <-; reflexivity.
Qed.

Lemma mem_iff (m : bytes) (l : list bytes) : mem m l = true <-> In m l.
Proof.
  unfold mem. rewrite existsb_exists. split.
  - intros (y & Hy & Heq). apply bytes_eqb_eq in Heq. subst. exact Hy.
  - intros H. exists m. split; [exact H|].
    apply bytes_eqb_refl.
Qed.

Lemma record_done func F sp (w w1 : world) (data : list pyval) (g : pyval -> pyval) :
  check_progress w = (Ok data, w1) -> data <> [] ->
  (forall x, In x data -> func x = Returns (g x)) ->
  exists p w',
    ckpt_file (obj w1) = Some p /\
    record func F sp w = (Ok (Some (map g data)), w') /\
    obj w' = mkCheckpoint (input_data (obj w1)) (Some p) (progress (obj w1) ++ map _encode data) /\
    fs w' p = Some (pickle_dumps (PList (map PBytes (progress (obj w'))))).
Proof.
  intros H Hne Hall.
  destruct (check_progress_ckpt _ _ _ H) as [p Hp].
  assert (Hall' : forall x, In x data -> exists r, func x = Returns r)
    by (intros x Hx; exists (g x); apply Hall; exact Hx).
  rewrite (record_nonempty _ _ _ _ _ _ H Hne).
  pose proof (loop_results func g data 0 F [] (add_event ESigint w1) p Hp Hall) as Hres.
  destruct (loop_ok func data 0 F [] (add_event ESigint w1) p Hp Hall')
    as (rs & w2 & t & Hrun & Hobj & _ & _ & _).
  rewrite Hrun in Hres |- *. simpl in Hres. injection Hres as ->.
  assert (Hp2 : ckpt_file (obj w2) = Some p) by (rewrite Hobj; reflexivity).
  rewrite (ckpt_write_at _ p Hp2).
  exists p, (after_write p w2). split; [exact Hp|]. split; [reflexivity|]. split.
  - unfold after_write. cbn [add_event set_fs obj]. rewrite Hobj. reflexivity.
  - unfold after_write, fs_write. cbn [add_event set_fs obj fs]. rewrite String.eqb_refl. reflexivity.
Qed.

Lemma record_final_file func F sp (w w1 : world) (data : list pyval) :
  check_progress w = (Ok data, w1) -> data <> [] ->
  (forall x, In x data -> exists r, func x = Returns r) ->
  exists p rs w',
    ckpt_file (obj w1) = Some p /\
    record func F sp w = (Ok (Some rs), w') /\
    obj w' = mkCheckpoint (input_data (obj w1)) (Some p) (progress (obj w1) ++ map _encode data) /\
    fs w' p = Some (pickle_dumps (PList (map PBytes (progress (obj w'))))).
Proof.
  intros H Hne Hall.
  destruct (check_progress_ckpt _ _ _ H) as [p Hp].
  rewrite (record_nonempty _ _ _ _ _ _ H Hne).
  destruct (loop_ok func data 0 F [] (add_event ESigint w1) p Hp Hall)
    as (rs & w2 & t & Hrun & Hobj & _ & _ & _).
  rewrite Hrun.
  assert (Hp2 : ckpt_file (obj w2) = Some p) by (rewrite Hobj; reflexivity).
  rewrite (ckpt_write_at _ p Hp2).
  exists p, rs, (after_write p w2). split; [exact Hp|]. split; [reflexivity|]. split.
  - unfold after_write. cbn [add_event set_fs obj]. rewrite Hobj. reflexivity.
  - apply after_write_file.
Qed.

Lemma check_progress_fresh_path (w : world) (path : string) :
  obj w = init (InStr path) None ->
  check_progress w = read_data path (touched w (str_of_Z (now w) ++ ".ckpt")%string).
Proof.
  intros Hw. unfold check_progress, touch, update_obj, emit.
  unfold bind, get, ret, modify.
  rewrite Hw. red_w. rewrite ?Hw. red_w. unfold touched. rewrite Hw. red_w.
  destruct (read_data path _) as [[l|e] w1] eqn:E; [|reflexivity].
  read_data_world_in. rewrite filter_keep_all; [reflexivity|]. intros x _. reflexivity.
Qed.

Lemma read_data_unsupported (path : string) (w : world) :
  ~ In (lower (path_suffix path)) [".7z"; ".7zip"; ".json"; ".gz"; ".gzip"]%string ->
  read_data path w = (Err (NotImplementedError unsupported_msg), w).
Proof.
  intros Hn. unfold read_data.
  destruct (String.eqb_spec (lower (path_suffix path)) ".7z");
    [exfalso; apply Hn; rewrite e; simpl; tauto|].
  destruct (String.eqb_spec (lower (path_suffix path)) ".7zip");
    [exfalso; apply Hn; rewrite e; simpl; tauto|].
  destruct (String.eqb_spec (lower (path_suffix path)) ".json");
    [exfalso; apply Hn; rewrite e; simpl; tauto|].
  destruct (String.eqb_spec (lower (path_suffix path)) ".gz");
    [exfalso; apply Hn; rewrite e; simpl; tauto|].
  destruct (String.eqb_spec (lower (path_suffix path)) ".gzip");
    [exfalso; apply Hn; rewrite e; simpl; tauto|].
  reflexivity.
Qed.

Lemma read_data_no_py7zr (path : string) (w : world) :
  In (lower (path_suffix path)) [".7z"; ".7zip"]%string -> has_py7zr w = false ->
  read_data path w = (Err (ImportError py7zr_msg), w).
Proof.
  intros Hs Hno. unfold read_data, bind, get, throw.
  replace (String.eqb (lower (path_suffix path)) ".7z" || String.eqb (lower (path_suffix path)) ".7zip")
    with true.
  - rewrite Hno. reflexivity.
  - destruct Hs as [<-|[<-|[]]]; reflexivity.
Qed.

Lemma record_fresh_empty func F sp (w : world) :
  obj w = init (InIter []) None ->
  let q := (str_of_Z (now w) ++ ".ckpt")%string in
  exists w',
    record func F sp w = (Ok None, w') /\
    trace w' = trace w ++ [ETouch q; EComplete] /\
    obj w' = mkCheckpoint (InIter []) (Some q) [] /\
    fs w' q = Some (match fs w q with Some c => c | None => [] end) /\
    (forall r, r <> q -> fs w' r = fs w r).
Proof.
  intros Hw q. unfold record, bind at 1. rewrite (check_progress_fresh w [] Hw).
  unfold emit, bind, modify, ret. eexists. split; [reflexivity|].
  red_w. fold q. split; [rewrite <- app_assoc; reflexivity|]. split; [reflexivity|].
  split.
  - rewrite String.eqb_refl. destruct (fs w q); reflexivity.
  - intros r Hr. apply String.eqb_neq in Hr. rewrite Hr. reflexivity.
Qed.

Lemma record_on_empty_file func F sp (w : world) (p : string) :
  ckpt_file (obj w) = Some p -> p <> EmptyString -> fs w p = Some [] ->
  record func F sp w = (Err EOFError, w).
Proof.
  intros Hc Hp Hf. unfold record, check_progress, ckpt_read.
  unfold bind, get, lift. red_w. rewrite Hc. destruct p as [|c p]; [congruence|].
  red_w. rewrite Hf. red_w. rewrite Hc, Hf. reflexivity.
Qed.

(** ** Helpers: pickled values load back *)
Lemma pow8_S (k : nat) : 2 ^ (8 * Z.of_nat (S k)) = 256 * 2 ^ (8 * Z.of_nat k).
Proof.
  replace (8 * Z.of_nat (S k)) with (8 + 8 * Z.of_nat k) by lia.
  rewrite Z.pow_add_r by lia. reflexivity.
Qed.

Lemma pow8_S_half (k : nat) : 2 ^ (8 * Z.of_nat (S k) - 1) = 128 * 2 ^ (8 * Z.of_nat k).
Proof.
  replace (8 * Z.of_nat (S k) - 1) with (7 + 8 * Z.of_nat k) by lia.
  rewrite Z.pow_add_r by lia. reflexivity.
Qed.

Lemma le_bytes_snoc (k : nat) (z : Z) :
  le_bytes (S k) z = le_bytes k z ++ [byte_of_Z (z / 2 ^ (8 * Z.of_nat k))].
Proof.
  revert z. induction k as [|k IH]; intros z.
  - simpl. rewrite Z.div_1_r. reflexivity.
  - change (le_bytes (S (S k)) z) with (byte_of_Z z :: le_bytes (S k) (z / 256)).
    rewrite IH. cbn [le_bytes app]. rewrite Z.div_div, <- pow8_S by (try apply Z.pow_pos_nonneg; lia).
    reflexivity.
Qed.

Lemma rev_le_bytes (k : nat) (z : Z) :
  rev (le_bytes (S k) z) = byte_of_Z (z / 2 ^ (8 * Z.of_nat k)) :: rev (le_bytes k z).
Proof. rewrite le_bytes_snoc, rev_app_distr. reflexivity. Qed.

Lemma decode_long_le_bytes (n : nat) (z : Z) :
  (0 < n)%nat -> - 2 ^ (8 * Z.of_nat n - 1) <= z < 2 ^ (8 * Z.of_nat n - 1) ->
  decode_long (le_bytes n z) = z.
Proof.
  destruct n as [|k]; [lia|]. intros _ Hz.
  rewrite pow8_S_half in Hz.
  unfold decode_long. rewrite rev_le_bytes, Z_of_byte_of_Z, le_val_le_bytes.
  unfold len. rewrite length_le_bytes, pow8_S.
  set (P := 2 ^ (8 * Z.of_nat k)) in *.
  assert (HP : 0 < P) by (apply Z.pow_pos_nonneg; lia).
  destruct (Z.ltb_spec ((z / P) mod 256) 128) as [H|H].
  - assert (0 <= z).
    { destruct (Z.ltb_spec z 0) as [Hn|Hn]; [|lia].
      exfalso. assert (-128 <= z / P) by (apply Z.div_le_lower_bound; lia).
      assert (z / P < 0) by (apply Z.div_lt_upper_bound; lia).
      rewrite Z.mod_eq in H by lia.
      assert (z / P / 256 = -1).
      { symmetry. apply Z.div_unique with (r := z / P + 256); lia. }
      lia. }
    apply Z.mod_small. lia.
  - assert (z < 0).
    { destruct (Z.ltb_spec z 0) as [Hn|Hn]; [lia|].
      exfalso. assert (0 <= z / P) by (apply Z.div_pos; lia).
      assert (z / P < 128) by (apply Z.div_lt_upper_bound; lia).
      rewrite Z.mod_small in H by lia. lia. }
    assert (z mod (256 * P) = z + 256 * P).
    { symmetry. apply Z.mod_unique with (q := -1); lia. }
    lia.
Qed.

Lemma land128 (b : byte) : (Z.land (Z_of_byte b) 128 =? 0) = (Z_of_byte b <? 128).
Proof. destruct b; reflexivity. Qed.

Lemma firstn_le_bytes (k : nat) (z : Z) : firstn k (le_bytes (S k) z) = le_bytes k z.
Proof.
  rewrite le_bytes_snoc. rewrite <- (length_le_bytes k z) at 1.
  rewrite firstn_app, firstn_all, Nat.sub_diag. simpl. apply app_nil_r.
Qed.

(** Floor division of a negative [z] with [- 256 * P <= z]. *)

Lemma div_neg_mod (z P : Z) :
  0 < P -> - (256 * P) <= z < 0 ->
  (z / P) mod 256 = z / P + 256 /\ - 256 <= z / P < 0 /\ P * (z / P) <= z.
Proof.
  intros HP Hz.
  assert (H1 : - 256 <= z / P) by (apply Z.div_le_lower_bound; lia).
  assert (H2 : z / P < 0) by (apply Z.div_lt_upper_bound; lia).
  split; [|split; [lia | apply Z.mul_div_le; exact HP]].
  symmetry. apply Z.mod_unique with (q := -1); lia.
Qed.

Lemma decode_encode_long (x : Z) : decode_long (encode_long x) = x.
Proof.
  unfold encode_long. destruct (Z.eqb_spec x 0) as [->|Hx]; [reflexivity|].
  pose proof (Z.log2_nonneg (Z.abs x)) as HL0.
  pose proof (Z.log2_spec (Z.abs x) ltac:(lia)) as HL.
  set (L := Z.log2 (Z.abs x)) in *.
  rewrite Z.shiftr_div_pow2 by lia. change (2 ^ 3) with 8.
  remember (Z.to_nat ((L + 1) / 8 + 1)) as n eqn:En.
  assert (Hn : Z.of_nat n = (L + 1) / 8 + 1).
  { rewrite En, Z2Nat.id; [reflexivity|]. pose proof (Z.div_pos (L + 1) 8). lia. }
  assert (Hn8 : L + 1 <= 8 * Z.of_nat n - 1).
  { rewrite Hn. pose proof (Z.mul_div_le (L + 1) 8). pose proof (Z.mod_pos_bound (L + 1) 8).
    rewrite (Z.div_mod (L + 1) 8) at 1 by lia. lia. }
  assert (Hpow : 2 ^ (L + 1) <= 2 ^ (8 * Z.of_nat n - 1)) by (apply Z.pow_le_mono_r; lia).
  assert (Hr : - 2 ^ (8 * Z.of_nat n - 1) <= x < 2 ^ (8 * Z.of_nat n - 1)).
  { destruct (Z.abs_spec x) as [[_ Ha]|[_ Ha]]; rewrite Ha in HL; lia. }
  assert (Hpos : (0 < n)%nat) by lia.
  destruct ((x <? 0) && (1 <? Z.of_nat n)) eqn:Eb;
    [|apply decode_long_le_bytes; assumption].
  apply andb_true_iff in Eb as [Eneg En1]. apply Z.ltb_lt in Eneg. apply Z.ltb_lt in En1.
  destruct n as [|[|j]]; [lia|lia|].
  rewrite !rev_le_bytes.
  destruct (Byte.eqb (byte_of_Z (x / 2 ^ (8 * Z.of_nat (S j)))) xff) eqn:E1;
    [|apply decode_long_le_bytes; assumption].
  rewrite land128.
  destruct (Z_of_byte (byte_of_Z (x / 2 ^ (8 * Z.of_nat j))) <? 128) eqn:E2;
    [apply decode_long_le_bytes; assumption|].
  cbn [andb negb pred]. rewrite firstn_le_bytes.
  apply decode_long_le_bytes; [lia|].
  apply Byte.byte_dec_bl in E1. apply (f_equal Z_of_byte) in E1.
  rewrite Z_of_byte_of_Z in E1. change (Z_of_byte xff) with 255 in E1.
  apply Z.ltb_ge in E2. rewrite Z_of_byte_of_Z in E2.
  rewrite pow8_S_half in Hr |- *. rewrite pow8_S in Hr, E1.
  set (P := 2 ^ (8 * Z.of_nat j)) in *.
  assert (HP : 0 < P) by (apply Z.pow_pos_nonneg; lia).
  destruct (div_neg_mod x (256 * P)) as (Hm & Hb & Hle); [lia | lia|].
  assert (Hq : x / (256 * P) = -1) by lia.
  rewrite Hq in Hle.
  destruct (div_neg_mod x P) as (Hm' & Hb' & Hle'); [lia | lia |].
  split; [|lia]. nia.
Qed.

Lemma take_le_bytes (k : nat) (z : Z) (rest : bytes) :
  take k (le_bytes k z ++ rest) = Some (le_bytes k z, rest).
Proof. pose proof (take_app (le_bytes k z) rest) as H. rewrite length_le_bytes in H. exact H. Qed.

Lemma counted_signed_ok (k : nat) (signed : bool) (hd data rest : bytes) (f : bytes -> bytes -> stepres) :
  List.length hd = k -> (if signed then decode_long hd else le_val hd) = len data ->
  len data <= PY_SSIZE_T_MAX ->
  counted k signed (hd ++ data ++ rest) f = f data rest.
Proof.
  intros Hk Hv Hmax. unfold counted. rewrite <- Hk, take_app, Hv.
  pose proof (len_nonneg data).
  destruct (len data <? 0) eqn:E1; [apply Z.ltb_lt in E1; lia|].
  destruct (PY_SSIZE_T_MAX <? len data) eqn:E2; [apply Z.ltb_lt in E2; lia|]. simpl.
  unfold len. rewrite Nat2Z.id, take_app. reflexivity.
Qed.

Lemma exec_save_long (z : Z) (rest : bytes) s m :
  len (encode_long z) < 2 ^ 31 ->
  exec (save_long z ++ rest) s m = exec rest (SVal (PInt z) :: s) m.
Proof.
  intros Hsz. unfold save_long.
  destruct ((0 <=? z) && (z <=? 255)) eqn:E1.
  { apply andb_true_iff in E1 as [E1 E1']. apply Z.leb_le in E1. apply Z.leb_le in E1'.
    apply exec_step. change [byte_of_Z z] with (le_bytes 1 z).
    cbn [app]. change (step (Op.BININT1 :: le_bytes 1 z ++ rest) s m)
      with (match take 1 (le_bytes 1 z ++ rest) with
            | Some (hd, rest1) => push (PInt (le_val hd)) rest1 s m
            | None => truncated end).
    rewrite take_le_bytes, le_val_le_bytes, Z.mod_small by (simpl; lia). reflexivity. }
  destruct ((0 <=? z) && (z <=? 65535)) eqn:E2.
  { apply andb_true_iff in E2 as [E2 E2']. apply Z.leb_le in E2. apply Z.leb_le in E2'.
    apply exec_step. cbn [app]. change (step (Op.BININT2 :: le_bytes 2 z ++ rest) s m)
      with (match take 2 (le_bytes 2 z ++ rest) with
            | Some (hd, rest1) => push (PInt (le_val hd)) rest1 s m
            | None => truncated end).
    rewrite take_le_bytes, le_val_le_bytes, Z.mod_small by (simpl; lia). reflexivity. }
  destruct ((- 2147483648 <=? z) && (z <=? 2147483647)) eqn:E3.
  { apply andb_true_iff in E3 as [E3 E3']. apply Z.leb_le in E3. apply Z.leb_le in E3'.
    apply exec_step. cbn [app]. change (step (Op.BININT :: le_bytes 4 z ++ rest) s m)
      with (match take 4 (le_bytes 4 z ++ rest) with
            | Some (hd, rest1) => push (PInt (decode_long hd)) rest1 s m
            | None => truncated end).
    rewrite take_le_bytes, decode_long_le_bytes by (simpl; lia). reflexivity. }
  pose proof (len_nonneg (encode_long z)).
  destruct (len (encode_long z) <? 256) eqn:E4.
  - apply Z.ltb_lt in E4. apply exec_step. cbn [app].
    transitivity (counted 1 false ([byte_of_Z (len (encode_long z))] ++ encode_long z ++ rest)
                    (fun d r => push (PInt (decode_long d)) r s m)); [reflexivity|].
    rewrite counted_signed_ok; [| reflexivity | apply le_val_byte; lia | unfold PY_SSIZE_T_MAX; lia].
    unfold push. rewrite decode_encode_long. reflexivity.
  - apply exec_step. cbn [app]. rewrite <- app_assoc.
    transitivity (counted 4 true (le_bytes 4 (len (encode_long z)) ++ encode_long z ++ rest)
                    (fun d r => push (PInt (decode_long d)) r s m)); [reflexivity|].
    rewrite counted_signed_ok; [| apply length_le_bytes | | unfold PY_SSIZE_T_MAX; lia].
    + unfold push. rewrite decode_encode_long. reflexivity.
    + apply decode_long_le_bytes; simpl; lia.
Qed.

Lemma exec_batch_vals (l : list pyval) (cnt : nat) (cur acc : list pyval) s m rest :
  Forall loads_back l ->
  exists m', exec (batch_appends (map save l) cnt ++ rest)
                  (rev (map SVal cur) ++ SMark :: SVal (PList acc) :: s) m
             = exec rest (SVal (PList (acc ++ cur ++ l)) :: s) m'.
Proof.
  revert cnt cur acc m. induction l as [|v l IH]; intros cnt cur acc m Hl; simpl.
  - exists m. apply exec_step. simpl. rewrite pop_mark_vals, !app_nil_r. reflexivity.
  - inversion Hl as [|? ? Hv Hl']; subst.
    destruct (Nat.eqb cnt BATCHSIZE).
    + rewrite (exec_step _ _ _ (Op.MARK :: save v ++ batch_appends (map save l) 1 ++ rest)
                 (SVal (PList (acc ++ cur)) :: s) m)
        by (simpl; rewrite pop_mark_vals, app_nil_r, <- app_assoc; reflexivity).
      rewrite (exec_step _ _ _ (save v ++ batch_appends (map save l) 1 ++ rest)
                 (SMark :: SVal (PList (acc ++ cur)) :: s) m) by reflexivity.
      destruct (Hv (batch_appends (map save l) 1 ++ rest) (SMark :: SVal (PList (acc ++ cur)) :: s) m)
        as [m1 Hm1]. rewrite Hm1.
      destruct (IH 1%nat [v] (acc ++ cur) m1 Hl') as [m' Hm'].
      exists m'. simpl in Hm'. rewrite Hm', <- !app_assoc. reflexivity.
    + rewrite <- app_assoc.
      destruct (Hv (batch_appends (map save l) (S cnt) ++ rest)
                   (rev (map SVal cur) ++ SMark :: SVal (PList acc) :: s) m) as [m1 Hm1].
      rewrite Hm1.
      destruct (IH (S cnt) (cur ++ [v]) acc m1 Hl') as [m' Hm'].
      exists m'. rewrite map_app, rev_app_distr in Hm'. simpl in Hm'.
      rewrite Hm', <- !app_assoc. reflexivity.
Qed.

Lemma save_loads_back (v : pyval) : fits v = true -> loads_back v.
Proof.
  induction v as [| b | z | bs | l IH] using pyval_ind'; intros Hf rest s m; simpl in Hf.
  - exists m. apply exec_step. reflexivity.
  - exists m. apply exec_step. destruct b; reflexivity.
  - exists m. apply exec_save_long. apply Z.ltb_lt. exact Hf.
  - exists (m ++ [PBytes bs]). apply exec_save_bytes. apply Z.leb_le. exact Hf.
  - assert (Hl : Forall loads_back l).
    { rewrite Forall_forall in IH |- *. intros x Hx. apply IH; [exact Hx|].
      rewrite forallb_forall in Hf. apply Hf. exact Hx. }
    change (save (PList l)) with (save_list (map save l)). unfold save_list.
    destruct l as [|v [|v' l']]; cbn [map app].
    + exists (m ++ [PList []]).
      rewrite (exec_step _ _ _ (Op.MEMOIZE :: rest) (SVal (PList []) :: s) m) by reflexivity.
      apply exec_step. reflexivity.
    + inversion Hl as [|? ? Hv _]; subst.
      rewrite (exec_step _ _ _ (Op.MEMOIZE :: (save v ++ [Op.APPEND]) ++ rest) (SVal (PList []) :: s) m)
        by reflexivity.
      rewrite (exec_step _ _ _ ((save v ++ [Op.APPEND]) ++ rest) (SVal (PList []) :: s) (m ++ [PList []]))
        by reflexivity.
      rewrite <- app_assoc.
      destruct (Hv ([Op.APPEND] ++ rest) (SVal (PList []) :: s) (m ++ [PList []])) as [m1 Hm1].
      rewrite Hm1. exists m1. apply exec_step. reflexivity.
    + set (B := batch_appends (save v :: save v' :: map save l') 0).
      rewrite (exec_step _ _ _ (Op.MEMOIZE :: Op.MARK :: B ++ rest) (SVal (PList []) :: s) m)
        by reflexivity.
      rewrite (exec_step _ _ _ (Op.MARK :: B ++ rest) (SVal (PList []) :: s) (m ++ [PList []]))
        by reflexivity.
      rewrite (exec_step _ _ _ (B ++ rest) (SMark :: SVal (PList []) :: s) (m ++ [PList []]))
        by reflexivity.
      destruct (exec_batch_vals (v :: v' :: l') 0 [] [] s (m ++ [PList []]) rest Hl) as [m' Hm'].
      exists m'. exact Hm'.
Qed.

Lemma loads_dumps (v : pyval) :
  fits v = true -> len (pickle_dumps v) <= PY_SSIZE_T_MAX ->
  pickle_loads (pickle_dumps v) = Ok v.
Proof.
  intros Hf Hmax.
  set (payload := save v ++ [Op.STOP]).
  assert (Hpay : len payload <= PY_SSIZE_T_MAX).
  { revert Hmax. unfold pickle_dumps, frame, len. fold payload.
    destruct (4 <=? Z.of_nat (List.length payload)); simpl;
    rewrite ?length_app, ?length_le_bytes; lia. }
  unfold pickle_loads. change (run _ ?d [] []) with (exec d [] []).
  unfold pickle_dumps. fold payload.
  rewrite (exec_step _ _ _ (frame payload) [] []) by reflexivity.
  assert (Hframe : exec (frame payload) [] [] = exec payload [] []).
  { unfold frame. destruct (4 <=? len payload); [|reflexivity].
    apply exec_step. cbv beta iota zeta delta [step Op.FRAME].
    rewrite take_le_bytes, le_val_le_bytes.
    pose proof (len_nonneg payload).
    rewrite Z.mod_small by (unfold PY_SSIZE_T_MAX in Hpay; simpl; lia).
    destruct (PY_SSIZE_T_MAX <? len payload) eqn:E1; [apply Z.ltb_lt in E1; lia|].
    unfold len. rewrite Z.ltb_irrefl. reflexivity. }
  rewrite Hframe. unfold payload.
  destruct (save_loads_back v Hf [Op.STOP] [] []) as [m' Hm']. rewrite Hm'.
  apply exec_stop. reflexivity.
Qed.

Lemma length_in_batch_any (L : list bytes) (b : bytes) (cnt : nat) :
  In b L -> (List.length b <= List.length (batch_appends L cnt))%nat.
Proof.
  revert cnt. induction L as [|x L IH]; intros cnt Hin; [destruct Hin|].
  destruct Hin as [<-|Hin]; [|pose proof (IH 1%nat Hin); pose proof (IH (S cnt) Hin)];
  simpl; destruct (Nat.eqb cnt BATCHSIZE); simpl; rewrite ?length_app; lia.
Qed.

Lemma length_in_save_list_any (L : list bytes) (b : bytes) :
  In b L -> (List.length b < List.length (save_list L))%nat.
Proof.
  intros Hin. unfold save_list.
  destruct L as [|x [|y L]]; [destruct Hin| |].
  - destruct Hin as [->|[]]. simpl. rewrite length_app. lia.
  - pose proof (length_in_batch_any (x :: y :: L) b 0 Hin). simpl in *. lia.
Qed.

Lemma length_encode_long (x : Z) : len (encode_long x) <= (Z.log2 (Z.abs x) + 1) / 8 + 1.
Proof.
  pose proof (Z.log2_nonneg (Z.abs x)). pose proof (Z.div_pos (Z.log2 (Z.abs x) + 1) 8).
  unfold encode_long. destruct (Z.eqb x 0); [unfold len; simpl; lia|].
  rewrite Z.shiftr_div_pow2 by lia. change (2 ^ 3) with 8.
  repeat match goal with |- context [match ?c with _ => _ end] => destruct c end;
    unfold len; rewrite ?length_firstn, length_le_bytes; lia.
Qed.

Lemma log2_small (z : Z) : - 2147483648 <= z <= 2147483647 -> Z.log2 (Z.abs z) <= 31.
Proof.
  intros H. change 31 with (Z.log2 (2 ^ 31)). apply Z.log2_le_mono. lia.
Qed.

Lemma fits_of_save (v : pyval) : len (save v) < 2 ^ 31 -> fits v = true.
Proof.
  induction v as [| b | z | bs | l IH] using pyval_ind'; intros Hs; try reflexivity.
  - simpl. apply Z.ltb_lt. simpl save in Hs. unfold save_long in Hs.
    destruct ((0 <=? z) && (z <=? 255)) eqn:E1;
      [|destruct ((0 <=? z) && (z <=? 65535)) eqn:E2;
        [|destruct ((- 2147483648 <=? z) && (z <=? 2147483647)) eqn:E3]].
    1-3: rewrite ?andb_true_iff, ?Z.leb_le in *;
         pose proof (length_encode_long z); pose proof (log2_small z ltac:(lia));
         pose proof (Z.log2_nonneg (Z.abs z));
         assert ((Z.log2 (Z.abs z) + 1) / 8 <= 4) by (apply Z.div_le_upper_bound; lia); lia.
    all: revert Hs; unfold len; destruct (Z.of_nat (List.length (encode_long z)) <? 256);
         simpl; rewrite ?length_app, ?length_le_bytes; lia.
  - simpl. apply Z.leb_le. simpl save in Hs. revert Hs. unfold len, PY_SSIZE_T_MAX.
    pose proof (length_save_bytes bs). lia.
  - simpl. apply forallb_forall. intros x Hx.
    rewrite Forall_forall in IH. apply IH; [exact Hx|].
    change (save (PList l)) with (save_list (map save l)) in Hs.
    pose proof (length_in_save_list_any (map save l) (save x) (in_map save l x Hx)).
    revert Hs. unfold len. lia.
Qed.

Lemma fits_of_pickle (v : pyval) :
  len (pickle_dumps v) < 2 ^ 31 -> fits v = true /\ len (pickle_dumps v) <= PY_SSIZE_T_MAX.
Proof.
  intros H. split; [|unfold PY_SSIZE_T_MAX; lia].
  apply fits_of_save. revert H. unfold pickle_dumps, frame, len.
  destruct (4 <=? Z.of_nat (List.length (save v ++ [Op.STOP]))); simpl;
    rewrite ?length_app, ?length_le_bytes; simpl; rewrite ?length_app; lia.
Qed.

Lemma encode_inj (a b : pyval) :
  len (pickle_dumps a) < 2 ^ 31 -> _encode a = _encode b -> a = b.
Proof.
  intros Ha Heq. unfold _encode in Heq.
  apply (f_equal b64decode) in Heq. rewrite !b64decode_encode in Heq.
  assert (Hb : len (pickle_dumps b) < 2 ^ 31) by (rewrite <- Heq; exact Ha).
  destruct (fits_of_pickle a Ha) as [Fa Ma]. destruct (fits_of_pickle b Hb) as [Fb Mb].
  apply (f_equal pickle_loads) in Heq. rewrite !loads_dumps in Heq by assumption.
  injection Heq as Heq. exact Heq.
Qed.

(** ** Properties *)

(** The results of [record].  When every callback returns, [g x] for the
    item [x], [record] returns the list [g x] over the work set, in the order
    of the work set. *)
Theorem record_returns_results_in_order func F sp (w w1 : world) (data : list pyval)
    (g : pyval -> pyval) :
  check_progress w = (Ok data, w1) -> data <> [] ->
  (forall x, In x data -> func x = Returns (g x)) ->
  fst (record func F sp w) = Ok (Some (map g data)).
Proof.
  intros H Hne Hall. destruct (record_done func F sp w w1 data g H Hne Hall) as (p & w' & _ & Hrec & _).
  rewrite Hrec. reflexivity.
Qed.

Lemma record_returns_results_in_order_witness :
  fst (record times10 100 true (fresh_world (map PInt [1; 2; 3]))) = Ok (Some (map PInt [10; 20; 30])).
Proof.
  apply (record_returns_results_in_order times10 100 true (fresh_world (map PInt [1; 2; 3]))
           (snd (check_progress (fresh_world (map PInt [1; 2; 3])))) (map PInt [1; 2; 3])
           (fun x => match x with PInt z => PInt (z * 10) | _ => PNone end)).
  - vm_compute. reflexivity.
  - discriminate.
  - intros x Hx. simpl in Hx.
    repeat (destruct Hx as [<-|Hx]; [reflexivity|]). destruct Hx.
Defined.

(** The checkpoint file after a complete run.  When every callback returns,
    the last write leaves in the checkpoint file the pickle of the progress
    list of [check_progress] followed by the markers of the whole work set,
    which is also the final progress list. *)
Theorem record_final_checkpoint_file func F sp (w w1 : world) (data : list pyval) :
  check_progress w = (Ok data, w1) -> data <> [] ->
  (forall x, In x data -> exists r, func x = Returns r) ->
  exists p rs w',
    ckpt_file (obj w1) = Some p /\
    record func F sp w = (Ok (Some rs), w') /\
    progress (obj w') = progress (obj w1) ++ map _encode data /\
    fs w' p = Some (pickle_dumps (PList (map PBytes (progress (obj w1) ++ map _encode data)))).
Proof.
  intros H Hne Hall.
  destruct (record_final_file func F sp w w1 data H Hne Hall) as (p & rs & w' & Hp & Hrec & Hobj & Hfile).
  exists p, rs, w'. rewrite Hobj in Hfile |- *. cbn [progress] in Hfile |- *.
  split; [exact Hp|]. split; [exact Hrec|]. split; [reflexivity | exact Hfile].
Qed.

Lemma record_final_checkpoint_file_witness :
  exists p rs w',
    ckpt_file (obj (snd (check_progress (fresh_world (map PInt [1; 2]))))) = Some p /\
    record times10 2 true (fresh_world (map PInt [1; 2])) = (Ok (Some rs), w') /\
    progress (obj w') = [] ++ map _encode (map PInt [1; 2]) /\
    fs w' p = Some (pickle_dumps (PList (map PBytes ([] ++ map _encode (map PInt [1; 2]))))).
Proof.
  apply (record_final_checkpoint_file times10 2 true (fresh_world (map PInt [1; 2]))
           (snd (check_progress (fresh_world (map PInt [1; 2])))) (map PInt [1; 2])).
  - vm_compute. reflexivity.
  - discriminate.
  - intros x Hx. simpl in Hx.
    repeat (destruct Hx as [<-|Hx]; [eexists; reflexivity|]). destruct Hx.
Defined.

(** Interrupt during a callback.  If the callbacks return on the first [k]
    items of the work set and SIGINT arrives during the call on item [k],
    the handler writes the checkpoint and [record] ends with [SystemExit 1];
    the checkpoint file then holds the progress list of [check_progress]
    followed by the markers of exactly those first [k] items, and no
    callback runs after item [k]. *)
Theorem record_interrupt_saves_completed func F sp (w w1 : world) (data : list pyval) (k : nat) :
  check_progress w = (Ok data, w1) ->
  (k < List.length data)%nat ->
  (forall j, (j < k)%nat -> exists r, func (nth j data PNone) = Returns r) ->
  func (nth k data PNone) = Interrupted ->
  exists p w',
    ckpt_file (obj w1) = Some p /\
    record func F sp w = (Err (SystemExit 1), w') /\
    progress (obj w') = progress (obj w1) ++ map _encode (firstn k data) /\
    fs w' p = Some (pickle_dumps (PList (map PBytes (progress (obj w'))))) /\
    exists t, trace w' = trace w1 ++ ESigint :: t /\ calls t = firstn (S k) data.
Proof.
  intros H Hk Hbefore Hfail.
  destruct (check_progress_ckpt _ _ _ H) as [p Hp].
  assert (Hne : data <> []) by (intros ->; simpl in Hk; lia).
  rewrite (record_nonempty _ _ _ _ _ _ H Hne).
  destruct (loop_interrupted_at func data k 0 F [] (add_event ESigint w1) p Hp Hk Hbefore Hfail)
    as (w' & Hrun & Hprog & Hfile & t & Htr & Hcalls).
  rewrite Hrun. exists p, w'. split; [exact Hp|]. split; [reflexivity|].
  split; [exact Hprog|]. split; [exact Hfile|].
  exists t. split; [|exact Hcalls].
  rewrite Htr. cbn [add_event trace]. rewrite <- app_assoc. reflexivity.
Qed.

Lemma record_interrupt_saves_completed_witness :
  exists p w',
    ckpt_file (obj (snd (check_progress (fresh_world (map PInt [1; 2; 3]))))) = Some p /\
    record interrupt_at_2 100 true (fresh_world (map PInt [1; 2; 3])) = (Err (SystemExit 1), w') /\
    progress (obj w') = [_encode (PInt 1)] /\
    fs w' p = Some (pickle_dumps (PList [PBytes (_encode (PInt 1))])).
Proof.
  destruct (record_interrupt_saves_completed interrupt_at_2 100 true (fresh_world (map PInt [1; 2; 3]))
              (snd (check_progress (fresh_world (map PInt [1; 2; 3])))) (map PInt [1; 2; 3]) 1)
    as (p & w' & H0 & H1 & H2 & H3 & _).
  - vm_compute. reflexivity.
  - simpl. lia.
  - intros j Hj. destruct j as [|j]; [eexists; reflexivity | lia].
  - reflexivity.
  - exists p, w'. split; [exact H0|]. split; [exact H1|].
    assert (H2' : progress (obj w') = [_encode (PInt 1)]) by (rewrite H2; vm_compute; reflexivity).
    split; [exact H2'|]. rewrite H3, H2'. reflexivity.
Defined.

(** A non-positive [checkpoint_every].  With [checkpoint_every <= 0] and
    every callback returning, [record] writes the checkpoint once, after the
    last item. *)
Theorem record_nonpositive_every func F sp (w w1 : world) (data : list pyval) :
  check_progress w = (Ok data, w1) -> data <> [] -> F <= 0 ->
  (forall x, In x data -> exists r, func x = Returns r) ->
  exists rs w' t,
    record func F sp w = (Ok (Some rs), w') /\
    trace w' = trace w1 ++ ESigint :: t /\
    calls t = data /\
    write_points t 0 = [Z.of_nat (List.length data)].
Proof.
  intros H Hne HF Hall.
  destruct (check_progress_ckpt _ _ _ H) as [p Hp].
  rewrite (record_nonempty _ _ _ _ _ _ H Hne).
  destruct (loop_no_flush func data 0 F [] (add_event ESigint w1) p Hp HF Hall)
    as (rs & w2 & t & Hrun & Hobj & Htr & Hcalls & Hwr).
  rewrite Hrun.
  assert (Hp2 : ckpt_file (obj w2) = Some p) by (rewrite Hobj; reflexivity).
  rewrite (ckpt_write_at _ p Hp2).
  exists rs, (after_write p w2), (t ++ [EWrite p (progress (obj w2))]).
  split; [reflexivity|]. split; [|split].
  - unfold after_write. cbn [add_event trace set_fs]. rewrite Htr. cbn [add_event trace].
    rewrite <- !app_assoc. reflexivity.
  - rewrite calls_app, Hcalls. simpl. apply app_nil_r.
  - rewrite write_points_app, write_points_quiet by exact Hwr. rewrite Hcalls. reflexivity.
Qed.

Lemma record_nonpositive_every_witness :
  exists rs w' t,
    record times10 0 true (fresh_world (map PInt [1; 2; 3])) = (Ok (Some rs), w') /\
    trace w' = trace (snd (check_progress (fresh_world (map PInt [1; 2; 3])))) ++ ESigint :: t /\
    calls t = map PInt [1; 2; 3] /\ write_points t 0 = [3].
Proof.
  destruct (record_nonpositive_every times10 0 true (fresh_world (map PInt [1; 2; 3]))
              (snd (check_progress (fresh_world (map PInt [1; 2; 3])))) (map PInt [1; 2; 3]))
    as (rs & w' & t & H1 & H2 & H3 & H4).
  - vm_compute. reflexivity.
  - discriminate.
  - lia.
  - intros x Hx. simpl in Hx.
    repeat (destruct Hx as [<-|Hx]; [eexists; reflexivity|]). destruct Hx.
  - exists rs, w', t. repeat split; assumption.
Defined.

(** An empty in-memory input.  A fresh object on an empty collection
    without a checkpoint path returns [None] from [record] without any
    callback call or checkpoint write; it sets its checkpoint path to
    [<time>.ckpt] and leaves there an empty file (or the file that was
    there), no other file being touched. *)
Theorem record_fresh_empty_input func F sp (w : world) :
  obj w = init (InIter []) None ->
  let q := (str_of_Z (now w) ++ ".ckpt")%string in
  exists w',
    record func F sp w = (Ok None, w') /\
    trace w' = trace w ++ [ETouch q; EComplete] /\
    obj w' = mkCheckpoint (InIter []) (Some q) [] /\
    fs w' q = Some (match fs w q with Some c => c | None => [] end) /\
    (forall r, r <> q -> fs w' r = fs w r).
Proof. apply record_fresh_empty. Qed.

Lemma record_fresh_empty_input_witness :
  exists w',
    record times10 100 true (fresh_world []) = (Ok None, w') /\
    trace w' = [ETouch "1700000000.ckpt"; EComplete]%string /\
    obj w' = mkCheckpoint (InIter []) (Some "1700000000.ckpt"%string) [] /\
    fs w' "1700000000.ckpt"%string = Some [] /\
    (forall r, r <> "1700000000.ckpt"%string -> fs w' r = None).
Proof.
  destruct (record_fresh_empty_input times10 100 true (fresh_world []) eq_refl)
    as (w' & H1 & H2 & H3 & H4 & H5).
  exists w'. split; [exact H1|]. split; [exact H2|]. split; [exact H3|]. split; [exact H4|].
  exact H5.
Defined.

(** An empty checkpoint file.  When the checkpoint path is set and the file
    there is empty, [record] raises [EOFError] (unpickling an empty stream)
    before any callback call or write, with the world unchanged. *)
Theorem record_empty_checkpoint_file func F sp (w : world) (p : string) :
  ckpt_file (obj w) = Some p -> p <> EmptyString -> fs w p = Some [] ->
  record func F sp w = (Err EOFError, w).
Proof. apply record_on_empty_file. Qed.

Lemma record_empty_checkpoint_file_witness :
  record times10 100 true
    (mkWorld (init (InIter [PInt 1]) (Some "e.ckpt"%string))
             (fun q => if String.eqb q "e.ckpt"%string then Some [] else None) no_files 0 false [])
  = (Err EOFError,
     mkWorld (init (InIter [PInt 1]) (Some "e.ckpt"%string))
             (fun q => if String.eqb q "e.ckpt"%string then Some [] else None) no_files 0 false []).
Proof.
  apply (record_empty_checkpoint_file times10 100 true _ "e.ckpt"%string);
    [reflexivity | discriminate | reflexivity].
Defined.

(** Two runs on an empty input.  On a fresh object with an empty
    collection (and no file at [<time>.ckpt]), a first [record] returns
    [None] and a second [record] on the same object raises [EOFError]: the
    first one left an empty checkpoint file and set the path to it. *)
Theorem record_twice_on_empty_input func F sp func' F' sp' (w : world) :
  obj w = init (InIter []) None -> fs w (str_of_Z (now w) ++ ".ckpt")%string = None ->
  exists w',
    record func F sp w = (Ok None, w') /\
    record func' F' sp' w' = (Err EOFError, w').
Proof.
  intros Hw Hnone.
  destruct (record_fresh_empty func F sp w Hw) as (w' & H1 & _ & H3 & H4 & _).
  exists w'. split; [exact H1|]. rewrite Hnone in H4.
  apply (record_on_empty_file _ _ _ w' (str_of_Z (now w) ++ ".ckpt")%string);
    [rewrite H3; reflexivity | apply auto_ckpt_name_nonempty | exact H4].
Qed.

Lemma record_twice_on_empty_input_witness :
  exists w',
    record times10 100 true (fresh_world []) = (Ok None, w') /\
    record times10 100 true w' = (Err EOFError, w').
Proof. apply record_twice_on_empty_input; reflexivity. Defined.

(** [insert] after a complete run.  After a run of a fresh object over an
    in-memory collection [data1] in which every callback returned,
    [insert(data2)] with items all in [data1] followed by [record] on the
    same object calls no callback and writes nothing: the in-memory
    progress list still holds the markers of [data1]. *)
Theorem record_insert_rerun_noop func F sp func' F' sp' (w : world) (data1 data2 : list pyval) :
  obj w = init (InIter data1) None -> data1 <> [] ->
  (forall x, In x data1 -> exists r, func x = Returns r) ->
  len (pickle_dumps (PList (map PBytes (map _encode data1)))) <= PY_SSIZE_T_MAX ->
  (forall x, In x data2 -> In x data1) ->
  exists rs w1 w2,
    record func F sp w = (Ok (Some rs), w1) /\
    (insert (InIter data2);; record func' F' sp') w1 = (Ok None, w2) /\
    trace w2 = trace w1 ++ [ESkipped (Z.of_nat (List.length data1)); EComplete] /\
    fs w2 = fs w1.
Proof.
  intros Hw Hne Hall Hsz Hsub.
  destruct (record_final_file func F sp w _ data1 (check_progress_fresh w data1 Hw) Hne Hall)
    as (p & rs & w1 & Hp & Hrec & Hobj & Hfile).
  revert Hp Hobj. red_w. intros Hp Hobj. injection Hp as <-.
  set (q := (str_of_Z (now w) ++ ".ckpt")%string) in *.
  set (w1' := set_obj (mkCheckpoint (InIter data2) (Some q) (map _encode data1)) w1).
  assert (Hins : insert (InIter data2) w1 = (Ok tt, w1')).
  { unfold insert, update_obj, modify, w1'. rewrite Hobj. reflexivity. }
  destruct (check_progress_resume w1' q (map _encode data1) data2)
    as (w2 & Hcp & Htr).
  - reflexivity.
  - apply auto_ckpt_name_nonempty.
  - unfold w1'. cbn [set_obj fs]. rewrite Hfile, Hobj. reflexivity.
  - exact Hsz.
  - reflexivity.
  - rewrite filter_drop_all in Hcp.
    2:{ intros x Hx. apply negb_false_iff. unfold w1'. cbn [set_obj obj progress].
        apply mem_in. apply in_or_app. left. apply in_map. apply Hsub. exact Hx. }
    exists rs, w1, (add_event EComplete w2). split; [exact Hrec|]. split.
    + unfold bind at 1. rewrite Hins. unfold record, bind at 1. rewrite Hcp. reflexivity.
    + split.
      * cbn [add_event trace]. rewrite Htr. unfold w1'. cbn [set_obj trace].
        rewrite length_map, <- app_assoc. reflexivity.
      * cbn [add_event fs]. rewrite (check_progress_keeps_files w1' w2 q _ eq_refl
                                       (auto_ckpt_name_nonempty _) Hcp).
        reflexivity.
Qed.

Lemma record_insert_rerun_noop_witness :
  exists rs w1 w2,
    record times10 100 true (fresh_world (map PInt [1; 2; 3])) = (Ok (Some rs), w1) /\
    (insert (InIter (map PInt [3; 1]));; record times10 100 true) w1 = (Ok None, w2) /\
    trace w2 = trace w1 ++ [ESkipped 3; EComplete] /\ fs w2 = fs w1.
Proof.
  apply (record_insert_rerun_noop times10 100 true times10 100 true
           (fresh_world (map PInt [1; 2; 3])) (map PInt [1; 2; 3]) (map PInt [3; 1])).
  - reflexivity.
  - discriminate.
  - intros x Hx. simpl in Hx.
    repeat (destruct Hx as [<-|Hx]; [eexists; reflexivity|]). destruct Hx.
  - vm_compute. discriminate.
  - intros x Hx. simpl in Hx |- *. tauto.
Defined.

(** An unsupported input file.  A fresh object whose input is a path whose
    lower-cased suffix is none of [.7z], [.7zip], [.json], [.gz], [.gzip]:
    [record] raises [NotImplementedError] before any callback call or
    write, after it has set the checkpoint path to [<time>.ckpt] and
    created the (empty) file there. *)
Theorem record_unsupported_input func F sp (w : world) (path : string) :
  obj w = init (InStr path) None ->
  ~ In (lower (path_suffix path)) [".7z"; ".7zip"; ".json"; ".gz"; ".gzip"]%string ->
  let q := (str_of_Z (now w) ++ ".ckpt")%string in
  exists w',
    record func F sp w = (Err (NotImplementedError unsupported_msg), w') /\
    trace w' = trace w ++ [ETouch q] /\
    obj w' = mkCheckpoint (InStr path) (Some q) [] /\
    fs w' q = Some (match fs w q with Some c => c | None => [] end).
Proof.
  intros Hw Hn q. unfold record, bind at 1.
  rewrite (check_progress_fresh_path w path Hw), read_data_unsupported by exact Hn.
  eexists. split; [reflexivity|]. unfold touched. red_w. rewrite Hw. fold q.
  split; [reflexivity|]. split; [reflexivity|].
  rewrite String.eqb_refl. destruct (fs w q); reflexivity.
Qed.

Lemma record_unsupported_input_witness :
  exists w',
    record times10 100 true (path_world "data/Items.CSV" None false)
    = (Err (NotImplementedError unsupported_msg), w') /\
    trace w' = [ETouch "1700000000.ckpt"%string] /\
    obj w' = mkCheckpoint (InStr "data/Items.CSV") (Some "1700000000.ckpt"%string) [] /\
    fs w' "1700000000.ckpt"%string = Some [].
Proof.
  apply (record_unsupported_input times10 100 true (path_world "data/Items.CSV" None false)
           "data/Items.CSV");
    [reflexivity | vm_compute; intros H; repeat (destruct H as [H|H]; [discriminate|]); exact H].
Defined.

(** A [.7z] input without [py7zr].  A fresh object whose input path has the
    suffix [.7z] or [.7zip] (in any case), where [py7zr] is not importable:
    [record] raises [ImportError] before any callback call or write, after
    it has set the checkpoint path and created the file there. *)
Theorem record_7z_without_py7zr func F sp (w : world) (path : string) :
  obj w = init (InStr path) None ->
  In (lower (path_suffix path)) [".7z"; ".7zip"]%string -> has_py7zr w = false ->
  let q := (str_of_Z (now w) ++ ".ckpt")%string in
  exists w',
    record func F sp w = (Err (ImportError py7zr_msg), w') /\
    trace w' = trace w ++ [ETouch q] /\
    obj w' = mkCheckpoint (InStr path) (Some q) [] /\
    fs w' q = Some (match fs w q with Some c => c | None => [] end).
Proof.
  intros Hw Hs Hno q. unfold record, bind at 1.
  rewrite (check_progress_fresh_path w path Hw), read_data_no_py7zr by assumption.
  eexists. split; [reflexivity|]. unfold touched. red_w. rewrite Hw. fold q.
  split; [reflexivity|]. split; [reflexivity|].
  rewrite String.eqb_refl. destruct (fs w q); reflexivity.
Qed.

Lemma record_7z_without_py7zr_witness :
  exists w',
    record times10 100 true (path_world "dump.7Z" (Some [PInt 1]) false)
    = (Err (ImportError py7zr_msg), w') /\
    trace w' = [ETouch "1700000000.ckpt"%string] /\
    obj w' = mkCheckpoint (InStr "dump.7Z") (Some "1700000000.ckpt"%string) [] /\
    fs w' "1700000000.ckpt"%string = Some [].
Proof.
  apply (record_7z_without_py7zr times10 100 true (path_world "dump.7Z" (Some [PInt 1]) false) "dump.7Z");
    [reflexivity | vm_compute; left; reflexivity | reflexivity].
Defined.

(** No input.  [Checkpoint()] with no input and no checkpoint path: [record]
    raises [TypeError] (iterating over [None]) before any callback call or
    write, after it has set the checkpoint path and created the file. *)
Theorem record_without_input func F sp (w : world) :
  obj w = init InNone None ->
  let q := (str_of_Z (now w) ++ ".ckpt")%string in
  exists w',
    record func F sp w = (Err TypeError, w') /\
    trace w' = trace w ++ [ETouch q] /\
    obj w' = mkCheckpoint InNone (Some q) [] /\
    fs w' q = Some (match fs w q with Some c => c | None => [] end).
Proof.
  intros Hw q. unfold record, check_progress, touch, update_obj, emit.
  unfold bind, get, ret, modify, throw.
  rewrite Hw. red_w. rewrite ?Hw. red_w. fold q.
  eexists. split; [reflexivity|]. red_w. split; [reflexivity|]. split; [reflexivity|].
  rewrite String.eqb_refl. destruct (fs w q); reflexivity.
Qed.

Lemma record_without_input_witness :
  exists w',
    record times10 100 true (mkWorld (init InNone None) (fun _ => None) no_files 42 false [])
    = (Err TypeError, w') /\
    trace w' = [ETouch "42.ckpt"%string] /\
    obj w' = mkCheckpoint InNone (Some "42.ckpt"%string) [] /\
    fs w' "42.ckpt"%string = Some [].
Proof.
  apply (record_without_input times10 100 true
           (mkWorld (init InNone None) (fun _ => None) no_files 42 false [])).
  reflexivity.
Defined.

(** A supported input file.  A fresh object whose input path has the
    lower-cased suffix [.json], [.gz] or [.gzip], or [.7z] or [.7zip] with
    [py7zr] importable: the work set of [check_progress] is the whole
    collection the file decodes to, in order, duplicates included. *)
Theorem check_progress_reads_input_file (w : world) (path : string) (data : list pyval) :
  obj w = init (InStr path) None ->
  In (lower (path_suffix path)) [".json"; ".gz"; ".gzip"]%string \/
  (In (lower (path_suffix path)) [".7z"; ".7zip"]%string /\ has_py7zr w = true) ->
  input_files w path = Some data ->
  exists w1,
    check_progress w = (Ok data, w1) /\
    trace w1 = trace w ++ [ETouch (str_of_Z (now w) ++ ".ckpt")%string] /\
    obj w1 = mkCheckpoint (InStr path) (Some (str_of_Z (now w) ++ ".ckpt")%string) [].
Proof.
  intros Hw Hs Hfile. rewrite (check_progress_fresh_path w path Hw).
  set (q := (str_of_Z (now w) ++ ".ckpt")%string).
  exists (touched w q).
  assert (Hrd : read_data path (touched w q) = (Ok data, touched w q)).
  { unfold read_data, json_load, bind, get, ret.
    assert (Hf : input_files (touched w q) path = Some data) by exact Hfile.
    destruct Hs as [Hs|[Hs Hpy]].
    - destruct Hs as [<-|[<-|[<-|[]]]]; cbn -[touched]; rewrite Hf; reflexivity.
    - assert (Hpy' : has_py7zr (touched w q) = true) by exact Hpy.
      destruct Hs as [<-|[<-|[]]]; cbn -[touched]; rewrite Hpy', Hf; reflexivity. }
  rewrite Hrd. split; [reflexivity|]. unfold touched. red_w. rewrite Hw.
  split; reflexivity.
Qed.

Lemma check_progress_reads_input_file_witness :
  exists w1,
    check_progress (path_world "in/Data.JSON" (Some [PInt 5; PInt 5]) false) = (Ok [PInt 5; PInt 5], w1) /\
    trace w1 = [ETouch "1700000000.ckpt"%string] /\
    obj w1 = mkCheckpoint (InStr "in/Data.JSON") (Some "1700000000.ckpt"%string) [].
Proof.
  apply (check_progress_reads_input_file (path_world "in/Data.JSON" (Some [PInt 5; PInt 5]) false)
           "in/Data.JSON").
  - reflexivity.
  - left. vm_compute. left. reflexivity.
  - reflexivity.
Defined.

(** The work set after a resume.  A fresh object over an in-memory collection
    with the checkpoint path of a file that holds the markers [S]: an input
    item is left out of the work set exactly when it is a [bytes] object
    equal to one of the markers of [S] (items of fewer than [2^31] pickled
    bytes): the items are compared with the markers, not their own markers. *)
Theorem check_progress_resume_work_set (w : world) (p : string) (S : list bytes) (data : list pyval) :
  ckpt_file (obj w) = Some p -> p <> EmptyString ->
  fs w p = Some (pickle_dumps (PList (map PBytes S))) ->
  len (pickle_dumps (PList (map PBytes S))) <= PY_SSIZE_T_MAX ->
  input_data (obj w) = InIter data -> progress (obj w) = [] ->
  (forall x, In x data -> len (pickle_dumps x) < 2 ^ 31) ->
  exists work w1,
    check_progress w = (Ok work, w1) /\
    forall x, In x work <-> In x data /\ ~ (exists m, In m S /\ x = PBytes m).
Proof.
  intros Hc Hp Hf Hsz Hin Hprog Hfit.
  destruct (check_progress_resume w p S data Hc Hp Hf Hsz Hin) as (w1 & Hcp & _).
  eexists _, w1. split; [exact Hcp|]. intros x. rewrite filter_In, Hprog. cbn [app].
  split.
  - intros [Hx Hneg]. split; [exact Hx|]. intros (m & Hm & ->).
    apply negb_true_iff in Hneg. rewrite <- not_true_iff_false, mem_iff in Hneg.
    apply Hneg. apply (in_map (fun m => _encode (PBytes m))). exact Hm.
  - intros [Hx Hno]. split; [exact Hx|]. apply negb_true_iff.
    rewrite <- not_true_iff_false, mem_iff, in_map_iff. intros (m & Heq & Hm).
    apply Hno. exists m. split; [exact Hm|].
    apply (encode_inj x (PBytes m) (Hfit x Hx)). symmetry. exact Heq.
Qed.

Lemma check_progress_resume_work_set_witness :
  exists work w1,
    check_progress (resume_world [PInt 1; PBytes (_encode (PInt 1)); PInt 2] [PInt 1]) = (Ok work, w1) /\
    forall x, In x work <-> In x [PInt 1; PBytes (_encode (PInt 1)); PInt 2] /\
                        ~ (exists m, In m [_encode (PInt 1)] /\ x = PBytes m).
Proof.
  apply (check_progress_resume_work_set _ "run.ckpt"%string).
  - reflexivity.
  - discriminate.
  - reflexivity.
  - vm_compute. discriminate.
  - reflexivity.
  - reflexivity.
  - intros x Hx. simpl in Hx.
    repeat (destruct Hx as [<-|Hx]; [vm_compute; reflexivity|]). destruct Hx.
Defined.

